(** * InteractiveImageDisplay: the annotation surface

    A shallow embedding of [src/components/InteractiveImageDisplay.tsx]
    (and of its reformatted twin under [src/src/components]): the React
    state of the component, its pointer handlers, the image-load callbacks,
    the imperative handle and the canvas draw effect.

    JavaScript numbers are IEEE 754 binary64 values; they are modelled by
    [spec_float] with the binary64 parameters, so that the arithmetic of the
    scale computation is the arithmetic the browser performs. *)

From Stdlib Require Import ZArith List String Ascii Bool Lia.
From Stdlib Require Import Floats.SpecFloat.
Import ListNotations.
Local Open Scope Z_scope.

(* ================================================================== *)
(** ** JavaScript numbers *)

Module JS.

Definition prec : Z := 53.
Definition emax : Z := 1024.

Definition number : Type := spec_float.

Definition NaN : number := S754_nan.
Definition Infinity : number := S754_infinity false.
Definition negInfinity : number := S754_infinity true.

Definition div : number -> number -> number := SFdiv prec emax.
Definition mul : number -> number -> number := SFmul prec emax.
Definition sub : number -> number -> number := SFsub prec emax.
Definition add : number -> number -> number := SFadd prec emax.
Definition ltb : number -> number -> bool := SFltb.
Definition leb : number -> number -> bool := SFleb.
(** [===] on two numbers: IEEE equality ([NaN] differs from itself,
    the two zeros are equal). *)
Definition eqb : number -> number -> bool := SFeqb.
(** [!==] on two numbers. *)
Definition neqb (a b : number) : bool := negb (eqb a b).

(** The number denoted by an integer (exact below [2^53], rounded to
    nearest even above). *)
Definition of_Z (z : Z) : number := binary_normalize prec emax z 0 false.

Definition is_nan (a : number) : bool :=
  match a with S754_nan => true | _ => false end.
Definition is_neg_zero (a : number) : bool :=
  match a with S754_zero true => true | _ => false end.
Definition is_pos_zero (a : number) : bool :=
  match a with S754_zero false => true | _ => false end.

(** A strictly positive finite number. *)
Definition is_pos_finite (a : number) : bool :=
  match a with S754_finite false _ _ => true | _ => false end.

(** [Math.min(...args)], ECMA-262 21.3.2.25: [lowest] starts at
    [+Infinity]; a [NaN] argument makes the result [NaN]; [-0] counts as
    smaller than [+0]. *)
Fixpoint min_loop (lowest : number) (args : list number) : number :=
  match args with
  | [] => lowest
  | n :: rest =>
      if is_nan n then NaN
      else
        let lowest1 :=
          if is_neg_zero n && is_pos_zero lowest then n else lowest in
        let lowest2 := if ltb n lowest1 then n else lowest1 in
        min_loop lowest2 rest
  end.

Definition Math_min (args : list number) : number := min_loop Infinity args.

(** [Math.max(...args)], ECMA-262 21.3.2.24. *)
Fixpoint max_loop (highest : number) (args : list number) : number :=
  match args with
  | [] => highest
  | n :: rest =>
      if is_nan n then NaN
      else
        let highest1 :=
          if is_pos_zero n && is_neg_zero highest then n else highest in
        let highest2 := if ltb highest1 n then n else highest1 in
        max_loop highest2 rest
  end.

Definition Math_max (args : list number) : number :=
  max_loop negInfinity args.

(** The integer part of a finite number, rounded toward zero (the
    truncation of the Web IDL integer conversions) and toward minus
    infinity.  A finite number is [(-1)^s * m * 2^e]; shifting by a
    negative amount is a right shift. *)
Definition truncate (a : number) : Z :=
  match a with
  | S754_finite s m e => cond_Zopp s (Z.shiftl (Zpos m) e)
  | _ => 0
  end.

Definition floor (a : number) : Z :=
  match a with
  | S754_finite s m e => Z.shiftl (cond_Zopp s (Zpos m)) e
  | _ => 0
  end.

Definition ceil (a : number) : Z := - floor (SFopp a).

Definition is_finite (a : number) : bool :=
  match a with S754_finite _ _ _ | S754_zero _ => true | _ => false end.

(** Web IDL [unsigned long] conversion of a number: [NaN], the zeros and
    the infinities give 0, anything else is truncated and reduced modulo
    [2^32]. *)
Definition ToUint32 (a : number) : Z := (truncate a) mod 2 ^ 32.

End JS.

Abbreviation number := JS.number.

(* ================================================================== *)
(** ** Data of the component *)

Record Point : Type := mkPoint { x : number; y : number }.

(** A single continuous stroke. *)
Definition Path : Type := list Point.

(** What the component reads of a decoded [HTMLImageElement]: its source
    and its natural size (both [unsigned long] in the DOM). *)
Record HTMLImageElement : Type := mkImage {
  src : string;
  naturalWidth : Z;
  naturalHeight : Z
}.

(** The [scale] computation of the draw effect. *)
Section Scale.
Variables maxDisplayWidth maxDisplayHeight : number.
Variable image : HTMLImageElement.

Definition scaleX : number :=
  JS.div maxDisplayWidth (JS.of_Z (naturalWidth image)).
Definition scaleY : number :=
  JS.div maxDisplayHeight (JS.of_Z (naturalHeight image)).
Definition scale : number := JS.Math_min [scaleX; scaleY; JS.of_Z 1].

Definition displayWidth : number :=
  JS.mul (JS.of_Z (naturalWidth image)) scale.
Definition displayHeight : number :=
  JS.mul (JS.of_Z (naturalHeight image)) scale.
End Scale.

(* ================================================================== *)
(** ** The canvas element and its 2D context

    The part of the HTML canvas API the component calls.  A canvas owns an
    output bitmap of [width] x [height] pixels and a 2D context with its
    drawing state.  Rasterisation proper (image scaling, line joins, glyphs,
    alpha blending, PNG encoding) is the browser's; it is an interface,
    [Rasterizer], and every drawing call composites what the rasteriser
    yields for a pixel over what the bitmap holds at that pixel
    (source-over, the default composite operation). *)

Record StrokeStyle : Type := mkStrokeStyle {
  ss_strokeStyle : string;
  ss_lineWidth : number;
  ss_lineCap : string;
  ss_lineJoin : string
}.

Record TextStyle : Type := mkTextStyle {
  ts_fillStyle : string;
  ts_textAlign : string;
  ts_font : string
}.

Class Rasterizer : Type := {
  pixel : Type;
  (** transparent black, the content of a fresh or cleared bitmap *)
  transparent : pixel;
  (** the pixel of a CSS colour *)
  solid : string -> pixel;
  (** [over s d]: source [s] composited over destination [d] *)
  over : pixel -> pixel -> pixel;
  (** [drawImage(image, dx, dy, dw, dh)] sampled at a pixel *)
  imagePixel :
    HTMLImageElement -> number -> number -> number -> number -> Z -> Z -> pixel;
  (** the stroke of a list of subpaths sampled at a pixel *)
  strokePixel : StrokeStyle -> list Path -> Z -> Z -> pixel;
  (** [fillText(text, x, y)] sampled at a pixel *)
  textPixel : TextStyle -> string -> number -> number -> Z -> Z -> pixel;
  (** the base64 PNG encoding of a bitmap given as its rows *)
  encodePNG : Z -> Z -> list (list pixel) -> string
}.

Definition is_hex_digit (c : ascii) : bool :=
  let n := nat_of_ascii c in
  ((48 <=? n) && (n <=? 57) || (65 <=? n) && (n <=? 70)
   || (97 <=? n) && (n <=? 102))%nat.

Fixpoint all_hex (s : string) : bool :=
  match s with
  | EmptyString => true
  | String c rest => is_hex_digit c && all_hex rest
  end.

(** A colour written [#RRGGBB] has alpha 1: painting it replaces the
    destination pixel. *)
Definition is_opaque (style : string) : bool :=
  match style with
  | String "#"%char digits => (String.length digits =? 6)%nat && all_hex digits
  | _ => false
  end.

Record Context2D : Type := mkContext2D {
  fillStyle : string;
  strokeStyle : string;
  lineWidth : number;
  lineCap : string;
  lineJoin : string;
  textAlign : string;
  font : string;
  (** the current default path, a list of subpaths *)
  subpaths : list Path
}.

(** The drawing state of a context that was just created or reset. *)
Definition default_context : Context2D :=
  {| fillStyle := "#000000"; strokeStyle := "#000000";
     lineWidth := JS.of_Z 1; lineCap := "butt"; lineJoin := "miter";
     textAlign := "start"; font := "10px sans-serif"; subpaths := [] |}.

(** Assignments to the attributes of the context. *)
Definition ctx_fillStyle (v : string) (k : Context2D) : Context2D :=
  {| fillStyle := v; strokeStyle := strokeStyle k; lineWidth := lineWidth k;
     lineCap := lineCap k; lineJoin := lineJoin k; textAlign := textAlign k;
     font := font k; subpaths := subpaths k |}.
Definition ctx_strokeStyle (v : string) (k : Context2D) : Context2D :=
  {| fillStyle := fillStyle k; strokeStyle := v; lineWidth := lineWidth k;
     lineCap := lineCap k; lineJoin := lineJoin k; textAlign := textAlign k;
     font := font k; subpaths := subpaths k |}.
Definition ctx_lineWidth (v : number) (k : Context2D) : Context2D :=
  {| fillStyle := fillStyle k; strokeStyle := strokeStyle k; lineWidth := v;
     lineCap := lineCap k; lineJoin := lineJoin k; textAlign := textAlign k;
     font := font k; subpaths := subpaths k |}.
Definition ctx_lineCap (v : string) (k : Context2D) : Context2D :=
  {| fillStyle := fillStyle k; strokeStyle := strokeStyle k;
     lineWidth := lineWidth k; lineCap := v; lineJoin := lineJoin k;
     textAlign := textAlign k; font := font k; subpaths := subpaths k |}.
Definition ctx_lineJoin (v : string) (k : Context2D) : Context2D :=
  {| fillStyle := fillStyle k; strokeStyle := strokeStyle k;
     lineWidth := lineWidth k; lineCap := lineCap k; lineJoin := v;
     textAlign := textAlign k; font := font k; subpaths := subpaths k |}.
Definition ctx_textAlign (v : string) (k : Context2D) : Context2D :=
  {| fillStyle := fillStyle k; strokeStyle := strokeStyle k;
     lineWidth := lineWidth k; lineCap := lineCap k; lineJoin := lineJoin k;
     textAlign := v; font := font k; subpaths := subpaths k |}.
Definition ctx_font (v : string) (k : Context2D) : Context2D :=
  {| fillStyle := fillStyle k; strokeStyle := strokeStyle k;
     lineWidth := lineWidth k; lineCap := lineCap k; lineJoin := lineJoin k;
     textAlign := textAlign k; font := v; subpaths := subpaths k |}.
(** The path-building calls change the current default path only. *)
Definition ctx_subpaths (f : list Path -> list Path) (k : Context2D)
  : Context2D :=
  {| fillStyle := fillStyle k; strokeStyle := strokeStyle k;
     lineWidth := lineWidth k; lineCap := lineCap k; lineJoin := lineJoin k;
     textAlign := textAlign k; font := font k; subpaths := f (subpaths k) |}.

Section Canvas.
Context {R : Rasterizer}.

Record HTMLCanvasElement : Type := mkCanvas {
  width : Z;
  height : Z;
  ctx : Context2D;
  bitmap : Z -> Z -> pixel
}.

Definition blank : Z -> Z -> pixel := fun _ _ => transparent.

(** A reflected [unsigned long] attribute: the value assigned goes
    through the Web IDL conversion, and a result above [2^31 - 1] is
    replaced by the attribute's default. *)
Definition reflect_unsigned_long (default : Z) (v : number) : Z :=
  let n := JS.ToUint32 v in
  if n <=? 2147483647 then n else default.

(** [canvas.width = v] and [canvas.height = v].  Assigning either one,
    even to its present value, resets the context to its default state
    and replaces the bitmap by a transparent one. *)
Definition set_width (v : number) (c : HTMLCanvasElement) : HTMLCanvasElement :=
  {| width := reflect_unsigned_long 300 v; height := height c;
     ctx := default_context; bitmap := blank |}.

Definition set_height (v : number) (c : HTMLCanvasElement) : HTMLCanvasElement :=
  {| width := width c; height := reflect_unsigned_long 150 v;
     ctx := default_context; bitmap := blank |}.

(** [canvas.width] and [canvas.height] read as numbers. *)
Definition get_width (c : HTMLCanvasElement) : number := JS.of_Z (width c).
Definition get_height (c : HTMLCanvasElement) : number := JS.of_Z (height c).

Definition with_ctx (f : Context2D -> Context2D) (c : HTMLCanvasElement)
  : HTMLCanvasElement :=
  {| width := width c; height := height c; ctx := f (ctx c);
     bitmap := bitmap c |}.

Definition with_bitmap (f : (Z -> Z -> pixel) -> Z -> Z -> pixel)
  (c : HTMLCanvasElement) : HTMLCanvasElement :=
  {| width := width c; height := height c; ctx := ctx c;
     bitmap := f (bitmap c) |}.

Definition set_fillStyle (v : string) := with_ctx (ctx_fillStyle v).
Definition set_strokeStyle (v : string) := with_ctx (ctx_strokeStyle v).
Definition set_lineWidth (v : number) := with_ctx (ctx_lineWidth v).
Definition set_lineCap (v : string) := with_ctx (ctx_lineCap v).
Definition set_lineJoin (v : string) := with_ctx (ctx_lineJoin v).
Definition set_textAlign (v : string) := with_ctx (ctx_textAlign v).
Definition set_font (v : string) := with_ctx (ctx_font v).
Definition set_subpaths (f : list Path -> list Path) :=
  with_ctx (ctx_subpaths f).

(** The pixel [(col, row)] is the unit square at that position; a
    rectangle acts on the pixels it contains.  (The component only passes
    rectangles with integer corners and non-negative sides; the
    anti-aliased border of other rectangles is left out.) *)
Definition covers (rx ry rw rh : number) (col row : Z) : bool :=
  JS.is_finite rx && JS.is_finite ry && JS.is_finite rw && JS.is_finite rh
  && (JS.ceil rx <=? col) && (col + 1 <=? JS.floor (JS.add rx rw))
  && (JS.ceil ry <=? row) && (row + 1 <=? JS.floor (JS.add ry rh)).

Definition clearRect (rx ry rw rh : number) : HTMLCanvasElement -> HTMLCanvasElement :=
  with_bitmap (fun old col row =>
    if covers rx ry rw rh col row then transparent else old col row).

Definition fillRect (rx ry rw rh : number) (c : HTMLCanvasElement) : HTMLCanvasElement :=
  let style := fillStyle (ctx c) in
  with_bitmap (fun old col row =>
    if covers rx ry rw rh col row then
      if is_opaque style then solid style
      else over (solid style) (old col row)
    else old col row) c.

Definition fillText (text : string) (tx ty : number) (c : HTMLCanvasElement)
  : HTMLCanvasElement :=
  let style :=
    mkTextStyle (fillStyle (ctx c)) (textAlign (ctx c)) (font (ctx c)) in
  with_bitmap (fun old col row =>
    over (textPixel style text tx ty col row) (old col row)) c.

Definition drawImage (image : HTMLImageElement) (dx dy dw dh : number)
  : HTMLCanvasElement -> HTMLCanvasElement :=
  with_bitmap (fun old col row =>
    over (imagePixel image dx dy dw dh col row) (old col row)).

Definition beginPath : HTMLCanvasElement -> HTMLCanvasElement :=
  set_subpaths (fun _ => []).

Definition moveTo (px py : number) : HTMLCanvasElement -> HTMLCanvasElement :=
  set_subpaths (fun sp => sp ++ [[mkPoint px py]]).

(** [lineTo] extends the last subpath, or starts one when there is none. *)
Definition lineTo (px py : number) : HTMLCanvasElement -> HTMLCanvasElement :=
  set_subpaths (fun sp =>
    match rev sp with
    | [] => [[mkPoint px py]]
    | last :: before => rev before ++ [last ++ [mkPoint px py]]
    end).

Definition stroke (c : HTMLCanvasElement) : HTMLCanvasElement :=
  let k := ctx c in
  let style :=
    mkStrokeStyle (strokeStyle k) (lineWidth k) (lineCap k) (lineJoin k) in
  with_bitmap (fun old col row =>
    over (strokePixel style (subpaths k) col row) (old col row)) c.

(** The rows of the bitmap, top to bottom. *)
Definition Zrange (n : Z) : list Z := map Z.of_nat (seq 0 (Z.to_nat n)).

Definition rows (c : HTMLCanvasElement) : list (list pixel) :=
  map (fun row => map (fun col => bitmap c col row) (Zrange (width c)))
      (Zrange (height c)).

(** [canvas.toDataURL('image/png')]: a canvas with no pixels gives the
    string ["data:,"]. *)
Definition toDataURL (c : HTMLCanvasElement) : string :=
  if (width c =? 0) || (height c =? 0) then "data:,"
  else "data:image/png;base64," ++ encodePNG (width c) (height c) (rows c).

End Canvas.

(* ================================================================== *)
(** ** The component: props, state, events *)

(** The file handed over by the host; the component only passes it to a
    [FileReader]. *)
Record File : Type := mkFile { name : string; bytes : string }.

(** Props.  [onSelectionChange] is the host's callback; calling it is an
    [effect] below. *)
Record Props : Type := mkProps {
  imageFile : option File;
  maxDisplayWidth : number;
  maxDisplayHeight : number
}.

(** The defaults of the destructured props. *)
Definition default_maxDisplayWidth : number := JS.of_Z 800.
Definition default_maxDisplayHeight : number := JS.of_Z 600.

(** The four [useState] cells. *)
Record State : Type := mkState {
  image : option HTMLImageElement;
  drawingPaths : list Path;
  isDrawing : bool;
  currentPath : Path
}.

Definition initialState : State :=
  {| image := None; drawingPaths := []; isDrawing := false; currentPath := [] |}.

(** What a callback does besides setting state. *)
Inductive effect : Type :=
| onSelectionChange (selectionExists : bool)
| console_error (message : string)
| preventDefault.

Module MouseEvent.
Record t : Type := mk { button : Z; clientX : number; clientY : number }.
End MouseEvent.

Module Touch.
Record t : Type := mk { clientX : number; clientY : number }.
End Touch.

Inductive NativeEvent : Type :=
| Mouse (e : MouseEvent.t)
| Touches (touches : list Touch.t).

Record DOMRect : Type := mkRect { left : number; top : number }.

(** A pointer event as a handler sees it: the native event and the
    bounding rectangle the canvas has when the handler runs. *)
Record PointerEvent : Type := mkPointerEvent {
  nativeEvent : NativeEvent;
  boundingClientRect : DOMRect
}.

(* ================================================================== *)
(** ** Callbacks

    A callback reads the state of the render that created it (its closure,
    [snap] below), queues state updates and calls out.  [Call A] threads the
    pending state and the effects; a callback that throws stops there with
    [None] and keeps what it queued. *)

Definition Call (A : Type) : Type :=
  State -> list effect -> option A * State * list effect.

Definition ret {A} (a : A) : Call A := fun s out => (Some a, s, out).

Definition bind {A B} (m : Call A) (f : A -> Call B) : Call B :=
  fun s out =>
    match m s out with
    | (Some a, s1, out1) => f a s1 out1
    | (None, s1, out1) => (None, s1, out1)
    end.

Definition throw {A} : Call A := fun s out => (None, s, out).

Declare Scope call_scope.
Delimit Scope call_scope with call.
Notation "a <- m ;; k" := (bind m (fun a => k))
  (at level 61, m at next level, right associativity) : call_scope.
Notation "m ;; k" := (bind m (fun _ => k))
  (at level 61, right associativity) : call_scope.
Local Open Scope call_scope.

Definition setImage (v : option HTMLImageElement) : Call unit :=
  fun s out =>
    (Some tt,
     {| image := v; drawingPaths := drawingPaths s; isDrawing := isDrawing s;
        currentPath := currentPath s |}, out).

Definition setDrawingPaths (v : list Path) : Call unit :=
  fun s out =>
    (Some tt,
     {| image := image s; drawingPaths := v; isDrawing := isDrawing s;
        currentPath := currentPath s |}, out).

Definition setIsDrawing (v : bool) : Call unit :=
  fun s out =>
    (Some tt,
     {| image := image s; drawingPaths := drawingPaths s; isDrawing := v;
        currentPath := currentPath s |}, out).

(** [setCurrentPath] with an updater function; [setCurrentPath(v)] is the
    constant updater. *)
Definition updateCurrentPath (f : Path -> Path) : Call unit :=
  fun s out =>
    (Some tt,
     {| image := image s; drawingPaths := drawingPaths s;
        isDrawing := isDrawing s; currentPath := f (currentPath s) |}, out).

Definition setCurrentPath (v : Path) : Call unit :=
  updateCurrentPath (fun _ => v).

Definition emit (e : effect) : Call unit :=
  fun s out => (Some tt, s, out ++ [e]).

(** Running a callback on the current state: the state it leaves and the
    effects it had, in order. *)
Definition run_call {A} (m : Call A) (s : State) : State * list effect :=
  let '(_, s1, out) := m s [] in (s1, out).

(** [getMousePos]: the position of the pointer (or of the first touch)
    relative to the canvas.  Reading [touches[0]] of an empty touch list
    throws. *)
Definition getMousePos (rect : DOMRect) (evt : NativeEvent) : Call Point :=
  match evt with
  | Touches [] => throw
  | Touches (t0 :: _) =>
      ret {| x := JS.sub (Touch.clientX t0) (left rect);
             y := JS.sub (Touch.clientY t0) (top rect) |}
  | Mouse e =>
      ret {| x := JS.sub (MouseEvent.clientX e) (left rect);
             y := JS.sub (MouseEvent.clientY e) (top rect) |}
  end.

Definition has_image (s : State) : bool :=
  match image s with Some _ => true | None => false end.

(** [event.nativeEvent instanceof MouseEvent && event.nativeEvent.button !== 0] *)
Definition secondary_button (evt : NativeEvent) : bool :=
  match evt with
  | Mouse e => negb (MouseEvent.button e =? 0)
  | Touches _ => false
  end.

Definition handleInteractionStart (snap : State) (event : PointerEvent)
  : Call unit :=
  if negb (has_image snap) || secondary_button (nativeEvent event) then ret tt
  else
    emit preventDefault ;;
    pos <- getMousePos (boundingClientRect event) (nativeEvent event) ;;
    setIsDrawing true ;;
    setCurrentPath [pos].

Definition handleInteractionMove (snap : State) (event : PointerEvent)
  : Call unit :=
  if negb (isDrawing snap) || negb (has_image snap) then ret tt
  else
    emit preventDefault ;;
    pos <- getMousePos (boundingClientRect event) (nativeEvent event) ;;
    updateCurrentPath (fun prevPath => prevPath ++ [pos]).

Definition handleInteractionEnd (snap : State) : Call unit :=
  if negb (isDrawing snap) || negb (has_image snap) then ret tt
  else
    emit preventDefault ;;
    setIsDrawing false ;;
    (if (1 <? List.length (currentPath snap))%nat then
       let newPaths := drawingPaths snap ++ [currentPath snap] in
       setDrawingPaths newPaths ;;
       emit (onSelectionChange (0 <? List.length newPaths)%nat)
     else ret tt) ;;
    setCurrentPath [].

(** The imperative handle. *)
Definition clearSelection : Call unit :=
  setDrawingPaths [] ;;
  setCurrentPath [] ;;
  setIsDrawing false ;;
  emit (onSelectionChange false).

(** The callbacks of the image-load effect. *)
Definition img_onload (img : HTMLImageElement) : Call unit :=
  setImage (Some img) ;;
  setDrawingPaths [] ;;
  emit (onSelectionChange false).

Definition img_onerror : Call unit :=
  emit (console_error "Error loading image source.") ;;
  setImage None ;;
  setDrawingPaths [] ;;
  emit (onSelectionChange false).

(** The [else] branch of the image-load effect ([imageFile] is null). *)
Definition no_imageFile : Call unit :=
  setImage None ;;
  setDrawingPaths [] ;;
  emit (onSelectionChange false).

(* ================================================================== *)
(** ** The draw effect *)

Notation "c |> f" := (f c) (at level 45, left associativity, only parsing).

Section Draw.
Context {R : Rasterizer}.

(** [beginPath(); moveTo(path[0]); for (i = 1 ..) lineTo(path[i]); stroke()] *)
Definition strokePolyline (path : Path) (canvas : HTMLCanvasElement)
  : HTMLCanvasElement :=
  match path with
  | [] => canvas
  | p0 :: rest =>
      fold_left (fun c pi => c |> lineTo (x pi) (y pi)) rest
        (canvas |> beginPath |> moveTo (x p0) (y p0))
      |> stroke
  end.

Definition drawPlaceholder (props : Props) (canvas : HTMLCanvasElement)
  : HTMLCanvasElement :=
  let placeholderWidth := maxDisplayWidth props in
  let placeholderHeight :=
    JS.Math_max [JS.of_Z 200; maxDisplayHeight props] in
  let canvas1 :=
    if JS.neqb (get_width canvas) placeholderWidth
       || JS.neqb (get_height canvas) placeholderHeight
    then canvas |> set_width placeholderWidth |> set_height placeholderHeight
    else canvas in
  canvas1
  |> set_fillStyle "#334155"
  |> (fun c => fillRect (JS.of_Z 0) (JS.of_Z 0) (get_width c) (get_height c) c)
  |> set_fillStyle "#94A3B8"
  |> set_textAlign "center"
  |> set_font "16px Inter, sans-serif"
  |> (fun c =>
        fillText "Image display area"
          (JS.div (get_width c) (JS.of_Z 2))
          (JS.div (get_height c) (JS.of_Z 2)) c).

Definition drawAnnotated (props : Props) (s : State)
  (image : HTMLImageElement) (canvas : HTMLCanvasElement)
  : HTMLCanvasElement :=
  let displayWidth :=
    displayWidth (maxDisplayWidth props) (maxDisplayHeight props) image in
  let displayHeight :=
    displayHeight (maxDisplayWidth props) (maxDisplayHeight props) image in
  let canvas1 :=
    if JS.neqb (get_width canvas) displayWidth
       || JS.neqb (get_height canvas) displayHeight
    then canvas |> set_width displayWidth |> set_height displayHeight
    else
      canvas
      |> (fun c =>
            clearRect (JS.of_Z 0) (JS.of_Z 0) (get_width c) (get_height c) c)
  in
  canvas1
  |> drawImage image (JS.of_Z 0) (JS.of_Z 0) displayWidth displayHeight
  |> set_strokeStyle "rgba(239, 68, 68, 0.9)"
  |> set_lineWidth (JS.of_Z 3)
  |> set_lineCap "round"
  |> set_lineJoin "round"
  |> (fun c =>
        fold_left
          (fun c path =>
             if (List.length path <? 2)%nat then c else strokePolyline path c)
          (drawingPaths s) c)
  |> (fun c =>
        if isDrawing s && (1 <? List.length (currentPath s))%nat
        then strokePolyline (currentPath s) c
        else c).

(** The body of the draw effect, on a mounted canvas whose 2D context is
    available. *)
Definition draw (props : Props) (s : State) (canvas : HTMLCanvasElement)
  : HTMLCanvasElement :=
  match image s with
  | None => drawPlaceholder props canvas
  | Some img => drawAnnotated props s img canvas
  end.

(** ** The mounted component *)

(** A decode in flight: the [FileReader] reading a file, then the
    [Image] decoding what was read. *)
Inductive Task : Type :=
| Reading (file : File)
| Decoding (file : File) (dataUrl : string).

Record Session : Type := mkSession {
  props : Props;
  (** the state as the updates queued so far leave it *)
  state : State;
  (** the state of the latest render: what the handlers of that render
      read from their closure, and what the draw effect painted *)
  rendered : State;
  (** [canvasRef.current] *)
  canvasRef : option HTMLCanvasElement;
  (** the decodes in flight, oldest first *)
  pending : list Task;
  (** every effect so far, oldest first *)
  log : list effect
}.

(** [getAnnotatedImageDataUrl] of the imperative handle; the handle is
    rebuilt at every render, so [image] is the one of the latest render. *)
Definition getAnnotatedImageDataUrl (s : Session) : option string :=
  match canvasRef s with
  | None => None
  | Some canvas =>
      if negb (has_image (rendered s)) then None else Some (toDataURL canvas)
  end.

Inductive Event : Type :=
(** the host passes [imageFile]; the image-load effect runs *)
| SetImageFile (file : option File)
(** [reader.onload] of the [k]-th task, with the data URL read *)
| ReaderLoad (k : nat) (result : string)
(** the [k]-th reader fails; no handler is installed for that *)
| ReaderError (k : nat)
(** [img.onload] of the [k]-th task, with the natural size decoded *)
| ImgLoad (k : nat) (w h : Z)
(** [img.onerror] of the [k]-th task *)
| ImgError (k : nat)
(** [onMouseDown], [onTouchStart] *)
| PointerDown (e : PointerEvent)
(** [onMouseMove], [onTouchMove] *)
| PointerMove (e : PointerEvent)
(** [onMouseUp], [onMouseLeave], [onTouchEnd] *)
| PointerEnd
(** [clearSelection] of the imperative handle *)
| ClearSelection
(** React renders the updates that were waiting *)
| Render.

Fixpoint remove_nth {A} (k : nat) (l : list A) : list A :=
  match l, k with
  | [], _ => []
  | _ :: t, O => t
  | a :: t, S k' => a :: remove_nth k' t
  end.

Fixpoint replace_nth {A} (k : nat) (v : A) (l : list A) : list A :=
  match l, k with
  | [], _ => []
  | _ :: t, O => v :: t
  | a :: t, S k' => a :: replace_nth k' v t
  end.

(** A callback ran: React commits the state it queued and re-renders,
    and the draw effect repaints the canvas.  (React skips the effect when
    none of its dependencies changed; the effect is run here all the same,
    since running it again on the same props and state leaves the same
    raster.) *)
Definition commit (s : Session) (m : Call unit) (tasks : list Task) : Session :=
  let '(st, out) := run_call m (state s) in
  {| props := props s; state := st; rendered := st;
     canvasRef := option_map (draw (props s) st) (canvasRef s);
     pending := tasks; log := log s ++ out |}.

(** A callback ran and its updates wait for the next render: the handlers
    installed and the canvas stay those of the latest render. *)
Definition queue (s : Session) (m : Call unit) : Session :=
  let '(st, out) := run_call m (state s) in
  {| props := props s; state := st; rendered := rendered s;
     canvasRef := canvasRef s; pending := pending s; log := log s ++ out |}.

Definition with_imageFile (file : option File) (s : Session) : Session :=
  {| props := {| imageFile := file;
                 maxDisplayWidth := maxDisplayWidth (props s);
                 maxDisplayHeight := maxDisplayHeight (props s) |};
     state := state s; rendered := rendered s; canvasRef := canvasRef s;
     pending := pending s; log := log s |}.

(** One turn of the event loop; [None] when the event cannot occur (no
    such task in flight).  The pointer handlers are those of the latest
    render: what they read of the state ([image], [isDrawing],
    [currentPath], [drawingPaths]) is [rendered s], while the updates they
    queue apply to [state s].  React renders the updates of [mousedown],
    [mouseup], [touchstart] and [touchend] before the next event; the
    same is assumed of [mouseleave], of the callbacks of the loader and
    of [clearSelection].  The updates of a pointer-move wait for a
    [Render], which may or may not come before the next pointer event. *)
Definition step (s : Session) (e : Event) : option Session :=
  match e with
  | SetImageFile (Some file) =>
      Some (commit (with_imageFile (Some file) s) (ret tt)
              (pending s ++ [Reading file]))
  | SetImageFile None =>
      Some (commit (with_imageFile None s) no_imageFile (pending s))
  | ReaderLoad k result =>
      match nth_error (pending s) k with
      | Some (Reading file) =>
          Some (commit s (ret tt)
                  (replace_nth k (Decoding file result) (pending s)))
      | _ => None
      end
  | ReaderError k =>
      match nth_error (pending s) k with
      | Some (Reading _) => Some (commit s (ret tt) (remove_nth k (pending s)))
      | _ => None
      end
  | ImgLoad k w h =>
      match nth_error (pending s) k with
      | Some (Decoding _ dataUrl) =>
          Some (commit s (img_onload (mkImage dataUrl w h))
                  (remove_nth k (pending s)))
      | _ => None
      end
  | ImgError k =>
      match nth_error (pending s) k with
      | Some (Decoding _ _) =>
          Some (commit s img_onerror (remove_nth k (pending s)))
      | _ => None
      end
  | PointerDown ev =>
      Some (commit s (handleInteractionStart (rendered s) ev) (pending s))
  | PointerMove ev => Some (queue s (handleInteractionMove (rendered s) ev))
  | PointerEnd =>
      Some (commit s (handleInteractionEnd (rendered s)) (pending s))
  | ClearSelection => Some (commit s clearSelection (pending s))
  | Render => Some (commit s (ret tt) (pending s))
  end.

Fixpoint run (s : Session) (trace : list Event) : option Session :=
  match trace with
  | [] => Some s
  | e :: rest =>
      match step s e with
      | Some s1 => run s1 rest
      | None => None
      end
  end.

(** A canvas element as created: 300 x 150, transparent. *)
Definition fresh_canvas : HTMLCanvasElement :=
  {| width := 300; height := 150; ctx := default_context; bitmap := blank |}.

(** The component as first rendered, before its effects ran; the mount
    effect of the image-load hook is the first [SetImageFile]. *)
Definition mounted (maxW maxH : number) : Session :=
  {| props := {| imageFile := None; maxDisplayWidth := maxW;
                 maxDisplayHeight := maxH |};
     state := initialState; rendered := initialState;
     canvasRef := Some fresh_canvas; pending := []; log := [] |}.

End Draw.

(** What reaches the host: the component's only callback prop is
    [onSelectionChange]; [console.error] writes to the console and
    [preventDefault] acts on the DOM event. *)
Definition host_visible (e : effect) : bool :=
  match e with
  | onSelectionChange _ => true
  | console_error _ => false
  | preventDefault => false
  end.

Definition host_view (out : list effect) : list effect :=
  filter host_visible out.

(** Every committed stroke has at least two points. *)
Definition strokes_ok (s : State) : Prop :=
  Forall (fun path : Path => (2 <= List.length path)%nat) (drawingPaths s).

(** A one-bit rasteriser, to run the component on examples: a pixel is
    either untouched or painted. *)
Definition mono : Rasterizer :=
  {| pixel := bool;
     transparent := false;
     solid := fun _ => true;
     over := orb;
     imagePixel := fun _ _ _ dw dh col row =>
       (0 <=? col) && (col <? JS.floor dw) && (0 <=? row) && (row <? JS.floor dh);
     strokePixel := fun _ sp col row =>
       existsb (existsb (fun p => (JS.floor (x p) =? col) && (JS.floor (y p) =? row))) sp;
     textPixel := fun _ _ _ _ _ _ => false;
     encodePNG := fun _ _ _ => "iVBORw0KGgo="%string |}.

(** ** Views of the canvas used by the statements *)

Section CanvasViews.
Context {R : Rasterizer}.

(** The dimensions of a canvas are reflected [unsigned long]s. *)
Definition valid_canvas (c : HTMLCanvasElement) : Prop :=
  0 <= width c <= 2147483647 /\ 0 <= height c <= 2147483647.

(** Two canvases that show the same raster and are in the same drawing
    state: same dimensions, same context, same pixel at every position
    of the bitmap. *)
Definition canvas_equiv (c1 c2 : HTMLCanvasElement) : Prop :=
  width c1 = width c2 /\ height c1 = height c2 /\ ctx c1 = ctx c2
  /\ forall col row,
       0 <= col < width c1 -> 0 <= row < height c1 ->
       bitmap c1 col row = bitmap c2 col row.

(** The test that guards the two assignments to [canvas.width] and
    [canvas.height], and the canvas those assignments leave. *)
Definition needs_resize (w h : number) (c : HTMLCanvasElement) : bool :=
  JS.neqb (get_width c) w || JS.neqb (get_height c) h.

Definition resized (w h : number) : HTMLCanvasElement :=
  {| width := reflect_unsigned_long 300 w;
     height := reflect_unsigned_long 150 h;
     ctx := default_context; bitmap := blank |}.

(** The strokes the draw effect paints, in order: the committed ones
    with two points or more, then the active one if drawing is on and it
    has two points or more. *)
Definition stroked (s : State) : list Path :=
  filter (fun path => negb (List.length path <? 2)%nat) (drawingPaths s)
  ++ (if isDrawing s && (1 <? List.length (currentPath s))%nat
      then [currentPath s] else []).

Definition annotation_style : StrokeStyle :=
  mkStrokeStyle "rgba(239, 68, 68, 0.9)" (JS.of_Z 3) "round" "round".

(** The context and the pixels [drawAnnotated] leaves, as functions of
    the context and of the pixel it found after sizing or clearing. *)
Definition annotated_ctx (s : State) (k : Context2D) : Context2D :=
  let k1 :=
    ctx_lineJoin "round"
      (ctx_lineCap "round"
         (ctx_lineWidth (JS.of_Z 3)
            (ctx_strokeStyle "rgba(239, 68, 68, 0.9)" k))) in
  match stroked s with
  | [] => k1
  | _ :: _ => ctx_subpaths (fun _ => [last (stroked s) []]) k1
  end.

Definition annotated_pixel (props : Props) (s : State)
  (img : HTMLImageElement) (col row : Z) (px : pixel) : pixel :=
  fold_left
    (fun px path => over (strokePixel annotation_style [path] col row) px)
    (stroked s)
    (over (imagePixel img (JS.of_Z 0) (JS.of_Z 0)
             (displayWidth (maxDisplayWidth props) (maxDisplayHeight props) img)
             (displayHeight (maxDisplayWidth props) (maxDisplayHeight props) img)
             col row) px).

(** The context [drawPlaceholder] leaves. *)
Definition placeholder_ctx (k : Context2D) : Context2D :=
  ctx_font "16px Inter, sans-serif"
    (ctx_textAlign "center" (ctx_fillStyle "#94A3B8" k)).
End CanvasViews.

(** The second request arrives while the first decode is in flight, and
    the first decode completes last. *)
Definition stale_completion : list Event :=
  [SetImageFile (Some {| name := "a.png"; bytes := "A" |});
   SetImageFile (Some {| name := "b.png"; bytes := "B" |});
   ReaderLoad 1 "data:image/png;base64,Qg=="; ImgLoad 1 640 480;
   ReaderLoad 0 "data:image/png;base64,QQ=="; ImgLoad 0 2000 1000].

(** Data for the examples. *)
Definition pt (px py : Z) : Point := {| x := JS.of_Z px; y := JS.of_Z py |}.

Definition mouse_at (button cx cy : Z) : PointerEvent :=
  {| nativeEvent :=
       Mouse {| MouseEvent.button := button; MouseEvent.clientX := JS.of_Z cx;
                MouseEvent.clientY := JS.of_Z cy |};
     boundingClientRect := {| left := JS.of_Z 0; top := JS.of_Z 0 |} |}.

(** Load an image, tap, then draw a stroke through three points, each
    move rendered before the next event. *)
Definition tap_then_stroke : list Event :=
  [SetImageFile (Some {| name := "a.png"; bytes := "A" |});
   ReaderLoad 0 "data:image/png;base64,QQ=="; ImgLoad 0 2000 1000;
   PointerDown (mouse_at 0 10 10); PointerEnd;
   PointerDown (mouse_at 0 10 10); PointerMove (mouse_at 0 50 10); Render;
   PointerMove (mouse_at 0 50 50); Render; PointerEnd].

Definition fileA : File := {| name := "a.png"; bytes := "A" |}.
Definition fileB : File := {| name := "b.png"; bytes := "B" |}.
Definition imgA : HTMLImageElement := mkImage "data:image/png;base64,QQ==" 2000 1000.
Definition imgB : HTMLImageElement := mkImage "data:image/png;base64,Qg==" 640 480.

(** Load an image and start a stroke of two points, rendered; a second
    file is then passed and fails to decode; the pointer goes up. *)
Definition failed_decode_while_drawing : list Event :=
  [SetImageFile (Some fileA); ReaderLoad 0 "data:image/png;base64,QQ==";
   ImgLoad 0 2000 1000;
   PointerDown (mouse_at 0 10 10); PointerMove (mouse_at 0 50 10); Render;
   SetImageFile (Some fileB); ReaderLoad 0 "data:image/png;base64,Qg==";
   ImgError 0; PointerEnd].

(** Load an image; pointer-down, one move, and the pointer-up before
    React has rendered the move. *)
Definition up_before_render : list Event :=
  [SetImageFile (Some fileA); ReaderLoad 0 "data:image/png;base64,QQ==";
   ImgLoad 0 2000 1000;
   PointerDown (mouse_at 0 10 10); PointerMove (mouse_at 0 50 10);
   PointerEnd].

(** Load an image one pixel wide and 10000 pixels high. *)
Definition narrow_image : list Event :=
  [SetImageFile (Some fileA); ReaderLoad 0 "data:image/png;base64,QQ==";
   ImgLoad 0 1 10000].

(** A gesture: a pointer-down, moves and a pointer-up.  The moves come in
    bursts, each followed by a render; the moves of [late] are handled
    after the last render, and the pointer-up comes before React renders
    them. *)
Definition gesture (e0 : PointerEvent) (bursts : list (list PointerEvent))
  (late : list PointerEvent) : list Event :=
  PointerDown e0
  :: flat_map (fun burst => map PointerMove burst ++ [Render]) bursts
  ++ map PointerMove late ++ [PointerEnd].

(* ================================================================== *)
(** ** Strings as the other modules use them *)

(** [!v] for a value that is a string or undefined: undefined and the
    empty string are falsy. *)
Definition falsy (v : option string) : bool :=
  match v with
  | None => true
  | Some EmptyString => true
  | Some (String _ _) => false
  end.

(** [s.includes(pat)] *)
Fixpoint includes (pat s : string) : bool :=
  String.prefix pat s
  || match s with
     | EmptyString => false
     | String _ rest => includes pat rest
     end.

(** [s.split(sep)] for a one-character separator: the pieces between the
    separators, at least one piece. *)
Fixpoint split (sep : ascii) (s : string) : list string :=
  match s with
  | EmptyString => [EmptyString]
  | String c rest =>
      if Ascii.eqb c sep then EmptyString :: split sep rest
      else
        match split sep rest with
        | piece :: pieces => String c piece :: pieces
        | [] => [String c EmptyString]
        end
  end.

(** Whether a character occurs in a string. *)
Fixpoint has_char (c : ascii) (s : string) : bool :=
  match s with
  | EmptyString => false
  | String c' rest => Ascii.eqb c' c || has_char c rest
  end.

(* ================================================================== *)
(** ** ImageUploader

    [src/components/ImageUploader.tsx]: the file input and the drop zone
    that hand a file to the host. *)

Module Uploader.

(** A file as the input or the drop carries it: the [File] and the MIME
    type the browser gives it ([file.type]). *)
Record Entry : Type := mkEntry { file : File; type : string }.

Inductive effect : Type :=
| onImageUpload (f : File)
| alert (message : string)
(** [fileInputRef.current.value = ""] *)
| resetInput
| preventDefault
| stopPropagation.

(** The [useState] cell. *)
Record State : Type := mkState { fileName : option string }.

Definition initialState : State := {| fileName := None |}.

Definition invalid_message : string :=
  "Please select a valid image file (e.g., PNG, JPG, GIF).".

(** [handleFileChange]; [files] is [event.target.files], empty when it is
    null.  The input element is mounted, so [fileInputRef.current] is
    set. *)
Definition handleFileChange (files : list Entry) (s : State)
  : State * list effect :=
  match files with
  | [] => (s, [])
  | f :: _ =>
      if String.prefix "image/" (type f) then
        ({| fileName := Some (name (file f)) |}, [onImageUpload (file f)])
      else
        ({| fileName := None |}, [alert invalid_message; resetInput])
  end.

Definition handleDragOver (s : State) : State * list effect :=
  (s, [preventDefault; stopPropagation]).

(** [handleDrop]; [files] is [event.dataTransfer.files]. *)
Definition handleDrop (disabled : bool) (files : list Entry) (s : State)
  : State * list effect :=
  if disabled then (s, [preventDefault; stopPropagation])
  else
    match files with
    | [] => (s, [preventDefault; stopPropagation])
    | f :: _ =>
        if String.prefix "image/" (type f) then
          ({| fileName := Some (name (file f)) |},
           [preventDefault; stopPropagation; onImageUpload (file f)])
        else
          ({| fileName := None |},
           [preventDefault; stopPropagation; alert invalid_message])
    end.

(** The click handler of the "Clear uploaded file" button. *)
Definition clearUploaded (s : State) : State * list effect :=
  ({| fileName := None |}, [resetInput]).

Inductive Event : Type :=
| Change (files : list Entry)
| DragOver
| Drop (disabled : bool) (files : list Entry)
| ClearClick.

Definition handle (e : Event) : State -> State * list effect :=
  match e with
  | Change files => handleFileChange files
  | DragOver => handleDragOver
  | Drop disabled files => handleDrop disabled files
  | ClearClick => clearUploaded
  end.

(** The state and the effects after a sequence of events, oldest first. *)
Fixpoint run (trace : list Event) (s : State) (out : list effect)
  : State * list effect :=
  match trace with
  | [] => (s, out)
  | e :: rest =>
      let '(s1, out1) := handle e s in run rest s1 (out ++ out1)
  end.

(** The files handed to the host, oldest first. *)
Fixpoint uploads (out : list effect) : list File :=
  match out with
  | [] => []
  | onImageUpload f :: rest => f :: uploads rest
  | _ :: rest => uploads rest
  end.

(** The files of a trace whose type the handlers accept: the first file
    of a change or of an enabled drop, when its type starts with
    [image/]. *)
Definition accepted (e : Event) : list File :=
  match e with
  | Change (f :: _) | Drop false (f :: _) =>
      if String.prefix "image/" (type f) then [file f] else []
  | _ => []
  end.

End Uploader.

(* ================================================================== *)
(** ** geminiService

    [getExplanationForImageRegion], in its two versions: the one of
    [src/utils/geminiService.ts], which reads the key from the environment
    and builds its client when the module loads, and the one with an
    [apiKey] parameter and a client built once on demand
    ([getGeminiClient]).  The request to the Gemini API is asynchronous;
    what comes of asking for it through the SDK is [ApiOutcome]. *)

Module Gemini.

Definition PROMPT_TEXT : string :=
  "You are an expert at analyzing images and identifying specific regions.
The user has provided an image with red ink markings (like underlines or circles) to highlight specific parts.
Please provide a concise and informative explanation or meaning of the content indicated by these markings.
Focus only on what is marked. If it's text, explain the text. If it's an object or area, describe it and its context within the markings.
Be descriptive and clear.".

(** A [GoogleGenAI] instance, known by the key it was built with. *)
Record Client : Type := mkClient { apiKey : string }.

Record Request : Type := mkRequest {
  model : string;
  mimeType : string;
  data : string;
  text : string
}.

(** What comes of asking the SDK: [generateContent] resolves with a
    response whose text may be missing, or rejects with an [Error] or with
    something else; or the SDK throws an [Error] before [generateContent]
    is called.  The last is what [ai.getGenerativeModel(...)] does when the
    object [new GoogleGenAI] built has no such method: the code reaches
    the method through a cast, [as unknown as GoogleGenAIWithModel]. *)
Inductive ApiOutcome : Type :=
| Resolves (text : option string)
| RejectsError (message : string)
| RejectsOther
| Throws (message : string).

(** The promise a call returns, once settled. *)
Inductive Settled : Type :=
| Fulfilled (explanation : string)
| Rejected (message : string).

(** [annotatedImageDataBase64.split(",")[1]] *)
Definition base64DataWithoutPrefix (annotatedImageDataBase64 : string)
  : option string :=
  nth_error (split ","%char annotatedImageDataBase64) 1.

(** What a call did besides settling: the requests it made (the calls of
    [generateContent]), with the client that made them, and what it wrote
    with [console.error] (the message of the error caught, when it is an
    [Error]). *)
Record Run : Type := mkRun {
  settled : Settled;
  requests : list (Client * Request);
  console : list (option string)
}.

(** The [catch] block; [error] is the message of the value caught when it
    is an [Error]. *)
Definition catch (error : option string) : Settled :=
  match error with
  | Some message =>
      if includes "API key not valid" message
      then Rejected "Invalid API Key. Please check your configuration."
      else Rejected ("Gemini API request failed: " ++ message)
  | None =>
      Rejected
        "An unknown error occurred while communicating with the Gemini API."
  end.

Definition rejected (message : string) : Run :=
  {| settled := Rejected message; requests := []; console := [] |}.

(** The [try] block of [src/utils/geminiService.ts]:
    [ai.models.generateContent] is called with the request; a response
    without text, like a rejection, ends in the [catch] block, which logs
    what it caught.  No other call of the SDK precedes [generateContent]
    there, so an [Error] the SDK throws is thrown by that call. *)
Definition request_explanation (api : Client -> Request -> ApiOutcome)
  (client : Client) (request : Request) : Run :=
  let caught error :=
    {| settled := catch error; requests := [(client, request)];
       console := [error] |} in
  match api client request with
  | Resolves (Some (String c explanation)) =>
      {| settled := Fulfilled (String c explanation);
         requests := [(client, request)]; console := [] |}
  | Resolves _ => caught (Some "No explanation received from the API."%string)
  | RejectsError message => caught (Some message)
  | RejectsOther => caught None
  | Throws message => caught (Some message)
  end.

(** The [try] block of the version with a parameter, once
    [getGeminiClient] returned the client: [ai.getGenerativeModel] comes
    first, and when it throws the [catch] block gets the error with no
    request made; otherwise [model.generateContent] is called and the
    block goes on as above. *)
Definition request_by_model (api : Client -> Request -> ApiOutcome)
  (client : Client) (request : Request) : Run :=
  match api client request with
  | Throws message =>
      {| settled := catch (Some message); requests := [];
         console := [Some message] |}
  | Resolves _ | RejectsError _ | RejectsOther =>
      request_explanation api client request
  end.

(** [src/utils/geminiService.ts]: [API_KEY] is [process.env.API_KEY]; the
    client is built with [API_KEY || ""] when the module loads. *)
Definition getExplanationForImageRegion_env (API_KEY : option string)
  (api : Client -> Request -> ApiOutcome) (annotatedImageDataBase64 : string)
  : Run :=
  let ai :=
    {| apiKey := match API_KEY with
                 | Some key => key
                 | None => EmptyString
                 end |} in
  if falsy API_KEY then rejected "Gemini API key is not configured."
  else
    match base64DataWithoutPrefix annotatedImageDataBase64 with
    | Some (String c payload) =>
        request_explanation api ai
          {| model := "gemini-2.5-flash"; mimeType := "image/png";
             data := String c payload; text := PROMPT_TEXT |}
    | Some EmptyString | None => rejected "Invalid image data format."
    end.

(** [getGeminiClient]: the module keeps one client, [_ai], and builds it
    at the first call. *)
Definition getGeminiClient (key : string) (_ai : option Client)
  : Client * option Client :=
  match _ai with
  | None => ({| apiKey := key |}, Some {| apiKey := key |})
  | Some client => (client, Some client)
  end.

(** The version with the [apiKey] parameter (it defaults to
    [API_KEY || ""]); [_ai] is threaded. *)
Definition getExplanationForImageRegion
  (api : Client -> Request -> ApiOutcome)
  (annotatedImageDataBase64 key : string) (_ai : option Client)
  : Run * option Client :=
  if falsy (Some key) then (rejected "Gemini API key is not configured.", _ai)
  else
    match base64DataWithoutPrefix annotatedImageDataBase64 with
    | Some (String c payload) =>
        let '(ai, _ai1) := getGeminiClient key _ai in
        (request_by_model api ai
           {| model := "gemini-2.5-flash-preview-04-17";
              mimeType := "image/png"; data := String c payload;
              text := PROMPT_TEXT |},
         _ai1)
    | Some EmptyString | None => (rejected "Invalid image data format.", _ai)
    end.

End Gemini.

(* ================================================================== *)
(** ** App

    The host: it keeps the uploaded file and the markings flag, and
    [handleLearn] sends the annotated image to the service of
    [src/utils/geminiService.ts]. *)

Module App.

Record State : Type := mkState {
  uploadedFile : option File;
  isLoading : bool;
  error : option string;
  geminiResponse : option string;
  hasMarkings : bool
}.

Definition initialState : State :=
  {| uploadedFile := None; isLoading := false; error := None;
     geminiResponse := None; hasMarkings := false |}.

Definition setError (v : option string) (s : State) : State :=
  {| uploadedFile := uploadedFile s; isLoading := isLoading s; error := v;
     geminiResponse := geminiResponse s; hasMarkings := hasMarkings s |}.

Definition setIsLoading (v : bool) (s : State) : State :=
  {| uploadedFile := uploadedFile s; isLoading := v; error := error s;
     geminiResponse := geminiResponse s; hasMarkings := hasMarkings s |}.

Definition setGeminiResponse (v : option string) (s : State) : State :=
  {| uploadedFile := uploadedFile s; isLoading := isLoading s;
     error := error s; geminiResponse := v; hasMarkings := hasMarkings s |}.

(** [handleMarkingsChange], the [onSelectionChange] the component gets. *)
Definition handleMarkingsChange (markingsExist : bool) (s : State) : State :=
  {| uploadedFile := uploadedFile s; isLoading := isLoading s;
     error := error s; geminiResponse := geminiResponse s;
     hasMarkings := markingsExist |}.

(** [handleImageUpload] and [handleClear], as far as the state of the app
    goes; both also call [clearSelection] on the component when it is
    mounted. *)
Definition handleImageUpload (f : File) (s : State) : State :=
  {| uploadedFile := Some f; isLoading := isLoading s; error := None;
     geminiResponse := None; hasMarkings := false |}.

Definition handleClear (s : State) : State :=
  {| uploadedFile := None; isLoading := isLoading s; error := None;
     geminiResponse := None; hasMarkings := false |}.

(** What [handleLearn] finds outside the state: [process.env.API_KEY]
    (the variable the service module read when it loaded),
    [interactiveImageRef.current] (absent, or present with what its
    [getAnnotatedImageDataUrl] returns) and the Gemini API. *)
Record Env : Type := mkEnv {
  API_KEY : option string;
  imageRef : option (option string);
  api : Gemini.Client -> Gemini.Request -> Gemini.ApiOutcome
}.

(** A run of [handleLearn], with no other event while the request is
    pending: the state while it is pending, when one is sent; the state
    once the handler is over; the run of the service; what the handler
    itself wrote with [console.error]. *)
Record Learn : Type := mkLearn {
  loading : option State;
  final : State;
  service : option Gemini.Run;
  console : list string
}.

Definition stop (s : State) (message : string) : Learn :=
  {| loading := None; final := setError (Some message) s; service := None;
     console := [] |}.

Definition handleLearn (env : Env) (s : State) : Learn :=
  if falsy (API_KEY env) then
    {| loading := None;
       final :=
         setError
           (Some "API Key is missing. Please configure it in your environment."%string)
           s;
       service := None;
       console := ["Error: process.env.API_KEY is not set."%string] |}
  else
    match uploadedFile s with
    | None => stop s "Please upload an image first."
    | Some _ =>
        if negb (hasMarkings s) then
          stop s "Please mark or underline the area on the image to learn about."
        else
          match imageRef env with
          | None => stop s "Image display component is not ready."
          | Some (Some (String c url)) =>
              let annotatedImageDataUrl := String c url in
              let pending :=
                s |> setIsLoading true |> setError None
                  |> setGeminiResponse None in
              let r :=
                Gemini.getExplanationForImageRegion_env (API_KEY env)
                  (api env) annotatedImageDataUrl in
              match Gemini.settled r with
              | Gemini.Fulfilled explanation =>
                  {| loading := Some pending;
                     final :=
                       pending |> setGeminiResponse (Some explanation)
                       |> setIsLoading false;
                     service := Some r; console := [] |}
              | Gemini.Rejected errorMessage =>
                  {| loading := Some pending;
                     final :=
                       (if includes "API key not valid" errorMessage then
                          pending
                          |> setError
                               (Some "Invalid API Key. Please check your API_KEY environment variable."%string)
                        else
                          pending
                          |> setError
                               (Some ("Failed to get explanation: " ++ errorMessage)%string))
                       |> setIsLoading false;
                     service := Some r;
                     console := ["Gemini API error:"%string] |}
              end
          | Some (Some EmptyString) | Some None =>
              stop s
                "Could not get annotated image data. Please try re-marking the area."
          end
    end.

End App.

(* ================================================================== *)
(** ** Views of a session used by the statements *)

(** What the host last heard through [onSelectionChange], starting from
    what it assumes before any call. *)
Fixpoint last_selection (out : list effect) (assumed : bool) : bool :=
  match out with
  | [] => assumed
  | onSelectionChange b :: rest => last_selection rest b
  | _ :: rest => last_selection rest assumed
  end.


(** The active stroke is non-empty exactly while drawing. *)
Definition active_stroke_ok (s : State) : Prop :=
  if isDrawing s then currentPath s <> [] else currentPath s = [].

(** The state is the latest render followed by the moves handled since:
    only [currentPath] can be ahead of it, by the points appended. *)
Definition ahead_by_moves (snap s : State) : Prop :=
  image s = image snap /\ drawingPaths s = drawingPaths snap
  /\ isDrawing s = isDrawing snap
  /\ exists points : Path, currentPath s = currentPath snap ++ points.

(** What holds of every session the mounted component reaches. *)
Definition session_ok {R : Rasterizer} (ses : Session) : Prop :=
  ahead_by_moves (rendered ses) (state ses)
  /\ strokes_ok (state ses)
  /\ active_stroke_ok (state ses)
  /\ last_selection (log ses) false
     = (0 <? List.length (drawingPaths (state ses)))%nat.

(** The pointer event [fst m] is at the position [snd m]. *)
Definition at_position (m : PointerEvent * Point) : Prop :=
  getMousePos (boundingClientRect (fst m)) (nativeEvent (fst m)) = ret (snd m).

(** The canvas of a session is valid and, once the component has
    rendered, it is what the draw effect made of the props and of the
    state of the latest render. *)
Definition canvas_ok {R : Rasterizer} (ses : Session) : Prop :=
  exists canvas : HTMLCanvasElement,
    canvasRef ses = Some canvas /\ valid_canvas canvas
    /\ ((canvas = fresh_canvas /\ rendered ses = initialState)
        \/ exists c0 : HTMLCanvasElement,
             valid_canvas c0
             /\ canvas = draw (props ses) (rendered ses) c0).

(** The composite the draw effect paints for an image: at every position
    of a [w] x [h] bitmap, the scaled image over a transparent pixel, then
    the strokes. *)
Definition annotated_rows {R : Rasterizer} (props : Props) (s : State)
  (img : HTMLImageElement) (w h : Z) : list (list pixel) :=
  map (fun row =>
         map (fun col => annotated_pixel props s img col row transparent)
             (Zrange w))
      (Zrange h).

(* ================================================================== *)
(** * Properties *)

(** ** Numbers *)

Lemma SFcompare_antisym (a b : number) (c : comparison) :
  SFcompare a b = Some c -> SFcompare b a = Some (CompOpp c).
Proof.
  destruct a as [sa|sa| |sa ma ea], b as [sb|sb| |sb mb eb]; simpl;
    try discriminate;
    try destruct sa; try destruct sb; simpl;
    intros H; inversion H; subst; clear H; try reflexivity;
    rewrite (Z.compare_antisym ea eb); destruct (ea ?= eb); simpl;
    try reflexivity; f_equal.
  - rewrite CompOpp_involutive. symmetry.
    rewrite <- (CompOpp_involutive (Pos.compare_cont Eq ma mb)). f_equal.
    now rewrite Pos.compare_cont_antisym.
  - now rewrite Pos.compare_cont_antisym.
Qed.

Lemma not_ltb_leb (a b : number) :
  JS.is_nan a = false -> JS.is_nan b = false ->
  JS.ltb b a = false -> JS.leb a b = true.
Proof.
  unfold JS.ltb, JS.leb, SFltb, SFleb. intros Ha Hb.
  destruct (SFcompare b a) as [c|] eqn:E.
  - rewrite (SFcompare_antisym _ _ _ E). destruct c; simpl; congruence.
  - destruct a, b; simpl in *; try discriminate;
      repeat match goal with s : bool |- _ => destruct s end; discriminate.
Qed.

Lemma shr_1_nonneg (mrs : shr_record) :
  0 <= shr_m mrs -> 0 <= shr_m (shr_1 mrs).
Proof.
  destruct mrs as [m r s]; destruct m as [|[p|p|]|[p|p|]]; simpl; lia.
Qed.

Lemma iter_pos_invariant {A} (P : A -> Prop) (f : A -> A) :
  (forall a, P a -> P (f a)) -> forall n a, P a -> P (iter_pos f n a).
Proof.
  intros Hf; induction n; intros a Ha; simpl; auto.
Qed.

Lemma shr_fexp_nonneg (m e : Z) (l : location) :
  0 <= m -> 0 <= shr_m (fst (shr_fexp JS.prec JS.emax m e l)).
Proof.
  intros Hm. unfold shr_fexp, shr.
  assert (H0 : 0 <= shr_m (shr_record_of_loc m l))
    by (destruct l as [|[]]; simpl; exact Hm).
  destruct (fexp JS.prec JS.emax (Zdigits2 m + e) - e); simpl; auto.
  apply (iter_pos_invariant (fun r => 0 <= shr_m r)); auto using shr_1_nonneg.
Qed.

Lemma round_nearest_even_nonneg (m : Z) (l : location) :
  0 <= m -> 0 <= round_nearest_even m l.
Proof.
  intros Hm. destruct l as [|[]]; simpl; try destruct (Z.even m); lia.
Qed.

(** Rounding a non-negative mantissa never yields [NaN]. *)
Lemma binary_round_aux_not_nan (sx : bool) (mx ex : Z) (lx : location) :
  0 <= mx -> JS.is_nan (binary_round_aux JS.prec JS.emax sx mx ex lx) = false.
Proof.
  intros Hm. unfold binary_round_aux.
  pose proof (shr_fexp_nonneg mx ex lx Hm) as H1.
  destruct (shr_fexp JS.prec JS.emax mx ex lx) as [mrs1 e1]. simpl in H1.
  pose proof (shr_fexp_nonneg
                (round_nearest_even (shr_m mrs1) (loc_of_shr_record mrs1))
                e1 loc_Exact (round_nearest_even_nonneg _ _ H1)) as H2.
  destruct (shr_fexp JS.prec JS.emax _ e1 loc_Exact) as [mrs2 e2]. simpl in H2.
  destruct (shr_m mrs2); [reflexivity | | lia].
  destruct (e2 <=? JS.emax - JS.prec); reflexivity.
Qed.

(** The quotient of two strictly positive finite numbers is a number. *)
Lemma div_pos_finite_not_nan (a b : number) :
  JS.is_pos_finite a = true -> JS.is_pos_finite b = true ->
  JS.is_nan (JS.div a b) = false.
Proof.
  destruct a as [| | |[] ma ea]; try discriminate.
  destruct b as [| | |[] mb eb]; try discriminate. intros _ _.
  unfold JS.div, SFdiv.
  destruct (SFdiv_core_binary JS.prec JS.emax (Z.pos ma) ea (Z.pos mb) eb)
    as [[mz ez] lz] eqn:E.
  apply binary_round_aux_not_nan.
  unfold SFdiv_core_binary in E.
  set (sh := ea - eb - _) in E.
  set (m' := match sh with Z0 => _ | Zpos _ => _ | Zneg _ => _ end) in E.
  assert (Hm' : 0 <= m').
  { subst m'. destruct sh; try lia. apply Z.shiftl_nonneg. lia. }
  assert (Hq : fst (Z.div_eucl m' (Z.pos mb)) = m' / Z.pos mb)
    by (unfold Z.div; destruct (Z.div_eucl m' (Z.pos mb)); reflexivity).
  destruct (Z.div_eucl m' (Z.pos mb)) as [q r]. inversion E; subst.
  simpl in Hq. rewrite Hq. apply Z.div_pos; lia.
Qed.

Lemma min_loop_nan (args : list number) : JS.min_loop JS.NaN args = JS.NaN.
Proof.
  induction args as [|n rest IH]; simpl; [reflexivity|].
  destruct (JS.is_nan n); [reflexivity|].
  rewrite andb_false_r.
  replace (JS.ltb n JS.NaN) with false by (now destruct n).
  exact IH.
Qed.

Lemma min_loop_app (l1 l2 : list number) (lowest : number) :
  JS.min_loop lowest (l1 ++ l2) = JS.min_loop (JS.min_loop lowest l1) l2.
Proof.
  revert lowest; induction l1 as [|n rest IH]; intros lowest; simpl;
    [reflexivity|].
  destruct (JS.is_nan n); [now rewrite min_loop_nan | apply IH].
Qed.

Lemma min_loop_not_nan (args : list number) (lowest : number) :
  JS.is_nan lowest = false ->
  forallb (fun n => negb (JS.is_nan n)) args = true ->
  JS.is_nan (JS.min_loop lowest args) = false.
Proof.
  revert lowest; induction args as [|n rest IH]; intros lowest Hl Hargs;
    simpl in *; [exact Hl|].
  apply andb_prop in Hargs as [Hn Hrest].
  destruct (JS.is_nan n) eqn:En; [discriminate|].
  apply IH; [|exact Hrest].
  destruct (JS.is_neg_zero n && JS.is_pos_zero lowest);
    destruct (JS.ltb n _); assumption.
Qed.

(** [Math.min] never exceeds its last argument. *)
Lemma Math_min_last (args : list number) (z : number) :
  JS.ltb z (JS.Math_min (args ++ [z])) = false.
Proof.
  unfold JS.Math_min. rewrite min_loop_app.
  set (l := JS.min_loop JS.Infinity args). simpl.
  destruct (JS.is_nan z) eqn:Ez; [now destruct z|].
  destruct (JS.is_neg_zero z && JS.is_pos_zero l) eqn:Ezero.
  - apply andb_prop in Ezero as [Hz _]. destruct z as [[]| | |]; try discriminate.
    reflexivity.
  - destruct (JS.ltb z l) eqn:Elt; [|exact Elt].
    unfold JS.ltb, SFltb in *.
    destruct (SFcompare z z) as [c|] eqn:E; [|reflexivity].
    pose proof (SFcompare_antisym _ _ _ E) as E'. rewrite E in E'.
    destruct c; try reflexivity; discriminate.
Qed.

Lemma digits2_pos_bounds (p : positive) :
  2 ^ (Z.pos (digits2_pos p) - 1) <= Z.pos p < 2 ^ Z.pos (digits2_pos p).
Proof.
  induction p as [p IH|p IH|]; simpl digits2_pos;
    [rewrite Pos2Z.inj_succ; change (Z.pos p~1) with (2 * Z.pos p + 1)
    | rewrite Pos2Z.inj_succ; change (Z.pos p~0) with (2 * Z.pos p)
    | change (1 <= 1 < 2); lia];
    replace (Z.succ (Z.pos (digits2_pos p)) - 1) with
      (Z.succ (Z.pos (digits2_pos p) - 1)) by lia;
    rewrite !Z.pow_succ_r by lia; lia.
Qed.

Lemma iter_xO_spec (m k : positive) :
  Z.pos (Pos.iter xO m k) = Z.pos m * 2 ^ Z.pos k
  /\ digits2_pos (Pos.iter xO m k) = (digits2_pos m + k)%positive.
Proof.
  induction k as [|k [IH1 IH2]] using Pos.peano_ind.
  - simpl. split; [lia | now rewrite Pos.add_1_r].
  - rewrite Pos.iter_succ. split.
    + rewrite Pos2Z.inj_xO, IH1, Pos2Z.inj_succ, Z.pow_succ_r by lia. lia.
    + simpl. rewrite IH2. now rewrite Pos.add_succ_r.
Qed.

(** A mantissa that already has the canonical exponent is left alone by
    rounding. *)
Lemma binary_round_aux_canonical (s : bool) (m : positive) (e : Z) :
  bounded JS.prec JS.emax m e = true ->
  binary_round_aux JS.prec JS.emax s (Z.pos m) e loc_Exact = S754_finite s m e.
Proof.
  unfold bounded, canonical_mantissa. intros H.
  apply andb_prop in H as [Hc Hb]. apply Z.eqb_eq in Hc.
  unfold binary_round_aux, shr_fexp. cbn [Zdigits2 shr_record_of_loc].
  rewrite Hc, Z.sub_diag. cbn [shr shr_m loc_of_shr_record round_nearest_even Zdigits2].
  rewrite Hc, Z.sub_diag. cbn [shr shr_m]. now rewrite Hb.
Qed.

(** Integers below [2^53] are numbers, exactly. *)
Lemma of_Z_exact (n : Z) :
  0 < n < 2 ^ 53 ->
  exists m e, JS.of_Z n = S754_finite false m e /\ e <= 0
              /\ Z.pos m = n * 2 ^ (- e).
Proof.
  intros Hn. destruct n as [|p|p]; try lia.
  unfold JS.of_Z, binary_normalize, binary_round.
  pose proof (digits2_pos_bounds p) as Hd.
  set (d := digits2_pos p) in *.
  assert (Hd53 : Z.pos d <= 53).
  { destruct (Z_le_gt_dec (Z.pos d) 53) as [|Hgt]; [assumption|].
    assert (2 ^ 53 <= 2 ^ (Z.pos d - 1)) by (apply Z.pow_le_mono_r; lia). lia. }
  assert (Hf : fexp JS.prec JS.emax (Z.pos d + 0) = Z.pos d - 53)
    by (unfold fexp, emin, JS.prec, JS.emax; lia).
  rewrite Hf. unfold shl_align.
  destruct (Z.pos d - 53 - 0) as [|k|k] eqn:Ek; try lia.
  - exists p, 0. rewrite binary_round_aux_canonical.
    + repeat split; lia.
    + unfold bounded, canonical_mantissa. fold d.
      apply andb_true_intro; split; [apply Z.eqb_eq | reflexivity].
      unfold fexp, emin, JS.prec, JS.emax; lia.
  - destruct (iter_xO_spec p k) as [Hv Hdig].
    exists (Pos.iter xO p k), (Z.pos d - 53).
    rewrite binary_round_aux_canonical.
    + repeat split; [lia|]. rewrite Hv. f_equal. f_equal. lia.
    + unfold bounded, canonical_mantissa. rewrite Hdig. fold d.
      apply andb_true_intro; split; [apply Z.eqb_eq | apply Z.leb_le].
      * rewrite Pos2Z.inj_add. unfold fexp, emin, JS.prec, JS.emax; lia.
      * unfold JS.prec, JS.emax; lia.
Qed.

Lemma of_Z_pos_finite (n : Z) :
  0 < n < 2 ^ 53 -> JS.is_pos_finite (JS.of_Z n) = true.
Proof.
  intros Hn. destruct (of_Z_exact n Hn) as (m & e & E & _). now rewrite E.
Qed.

(** Reading back an integer below [2^53]. *)
Lemma floor_of_Z (n : Z) : 0 <= n < 2 ^ 53 -> JS.floor (JS.of_Z n) = n.
Proof.
  intros Hn. destruct (Z.eq_dec n 0) as [->|Hz]; [reflexivity|].
  destruct (of_Z_exact n) as (m & e & E & He & Hm); [lia|].
  rewrite E. unfold JS.floor. cbn [cond_Zopp]. rewrite Hm.
  rewrite <- (Z.opp_involutive e) at 2.
  rewrite Z.shiftl_opp_r, Z.shiftr_div_pow2 by lia.
  apply Z.div_mul. apply Z.pow_nonzero; lia.
Qed.

(** ** The display scale *)

(** C1.  For an image with positive natural width and height and positive
    display bounds, the scale computed by the draw effect is
    [Math.min(maxDisplayWidth / naturalWidth, maxDisplayHeight /
    naturalHeight, 1)]; it is a number and it is at most 1; the display size
    is the natural size times that scale.  A 2000 x 1000 image within
    800 x 600 gets the scale 0.4 (the binary64 number
    [0x1.999999999999ap-2]) and the display size 800 x 400. *)
Theorem scale_is_clamped_min :
  (forall (maxW maxH : number) (img : HTMLImageElement),
      JS.is_pos_finite maxW = true -> JS.is_pos_finite maxH = true ->
      0 < naturalWidth img < 2 ^ 32 -> 0 < naturalHeight img < 2 ^ 32 ->
      scale maxW maxH img
      = JS.Math_min [JS.div maxW (JS.of_Z (naturalWidth img));
                     JS.div maxH (JS.of_Z (naturalHeight img));
                     JS.of_Z 1]
      /\ JS.is_nan (scale maxW maxH img) = false
      /\ JS.leb (scale maxW maxH img) (JS.of_Z 1) = true
      /\ displayWidth maxW maxH img
         = JS.mul (JS.of_Z (naturalWidth img)) (scale maxW maxH img)
      /\ displayHeight maxW maxH img
         = JS.mul (JS.of_Z (naturalHeight img)) (scale maxW maxH img))
  /\ (forall source : string,
         let img := mkImage source 2000 1000 in
         scale (JS.of_Z 800) (JS.of_Z 600) img
         = S754_finite false 7205759403792794 (-54)
         /\ displayWidth (JS.of_Z 800) (JS.of_Z 600) img = JS.of_Z 800
         /\ displayHeight (JS.of_Z 800) (JS.of_Z 600) img = JS.of_Z 400).
Proof.
  split.
  - intros maxW maxH img HW HH Hw Hh.
    assert (Hnan : JS.is_nan (scale maxW maxH img) = false).
    { unfold scale, JS.Math_min. apply min_loop_not_nan; [reflexivity|].
      unfold scaleX, scaleY. cbn [forallb].
      rewrite !div_pos_finite_not_nan; auto; apply of_Z_pos_finite; lia. }
    repeat split; auto.
    apply not_ltb_leb; auto.
    exact (Math_min_last [scaleX maxW img; scaleY maxH img] (JS.of_Z 1)).
  - intros source img. vm_compute. repeat split.
Qed.

Lemma scale_is_clamped_min_witness :
  JS.leb (scale (JS.of_Z 600) (JS.of_Z 450) (mkImage "data:a" 3000 500))
         (JS.of_Z 1) = true.
Proof.
  apply (proj1 scale_is_clamped_min (JS.of_Z 600) (JS.of_Z 450)
           (mkImage "data:a" 3000 500)); simpl; try reflexivity; lia.
Defined.

(* ================================================================== *)
(** ** The stroke recorder *)

(** The pointer handlers of a render [snap], run on a state [s]. *)
Lemma handleInteractionEnd_at (snap s : State) :
  run_call (handleInteractionEnd snap) s
  = if negb (isDrawing snap) || negb (has_image snap) then (s, [])
    else if (1 <? List.length (currentPath snap))%nat then
      ({| image := image s;
          drawingPaths := drawingPaths snap ++ [currentPath snap];
          isDrawing := false; currentPath := [] |},
       [preventDefault;
        onSelectionChange
          (0 <? List.length (drawingPaths snap ++ [currentPath snap]))%nat])
    else
      ({| image := image s; drawingPaths := drawingPaths s;
          isDrawing := false; currentPath := [] |},
       [preventDefault]).
Proof.
  unfold handleInteractionEnd.
  destruct (negb (isDrawing snap) || negb (has_image snap)); [reflexivity|].
  destruct (1 <? List.length (currentPath snap))%nat; reflexivity.
Qed.

Lemma handleInteractionEnd_run (s : State) :
  run_call (handleInteractionEnd s) s
  = if negb (isDrawing s) || negb (has_image s) then (s, [])
    else if (1 <? List.length (currentPath s))%nat then
      ({| image := image s;
          drawingPaths := drawingPaths s ++ [currentPath s];
          isDrawing := false; currentPath := [] |},
       [preventDefault;
        onSelectionChange
          (0 <? List.length (drawingPaths s ++ [currentPath s]))%nat])
    else
      ({| image := image s; drawingPaths := drawingPaths s;
          isDrawing := false; currentPath := [] |},
       [preventDefault]).
Proof. apply handleInteractionEnd_at. Qed.

Lemma getMousePos_cases (rect : DOMRect) (evt : NativeEvent) :
  getMousePos rect evt = throw \/ exists pos, getMousePos rect evt = ret pos.
Proof.
  destruct evt as [e|[|t0 ts]]; simpl; eauto.
Qed.

Lemma handleInteractionStart_at (snap s : State) (ev : PointerEvent)
  (pos : Point) :
  getMousePos (boundingClientRect ev) (nativeEvent ev) = ret pos ->
  run_call (handleInteractionStart snap ev) s
  = if negb (has_image snap) || secondary_button (nativeEvent ev) then (s, [])
    else
      ({| image := image s; drawingPaths := drawingPaths s;
          isDrawing := true; currentPath := [pos] |},
       [preventDefault]).
Proof.
  intros Hpos. unfold handleInteractionStart. rewrite Hpos.
  destruct (negb (has_image snap) || secondary_button (nativeEvent ev));
    reflexivity.
Qed.

Lemma handleInteractionStart_run (s : State) (ev : PointerEvent) (pos : Point) :
  getMousePos (boundingClientRect ev) (nativeEvent ev) = ret pos ->
  run_call (handleInteractionStart s ev) s
  = if negb (has_image s) || secondary_button (nativeEvent ev) then (s, [])
    else
      ({| image := image s; drawingPaths := drawingPaths s;
          isDrawing := true; currentPath := [pos] |},
       [preventDefault]).
Proof. apply handleInteractionStart_at. Qed.

Lemma handleInteractionMove_at (snap s : State) (ev : PointerEvent)
  (pos : Point) :
  getMousePos (boundingClientRect ev) (nativeEvent ev) = ret pos ->
  run_call (handleInteractionMove snap ev) s
  = if negb (isDrawing snap) || negb (has_image snap) then (s, [])
    else
      ({| image := image s; drawingPaths := drawingPaths s;
          isDrawing := isDrawing s; currentPath := currentPath s ++ [pos] |},
       [preventDefault]).
Proof.
  intros Hpos. unfold handleInteractionMove. rewrite Hpos.
  destruct (negb (isDrawing snap) || negb (has_image snap)); reflexivity.
Qed.

(** When [getMousePos] throws, the handler stops after [preventDefault]
    and sets no state. *)
Lemma handleInteractionStart_throw (snap s : State) (ev : PointerEvent) :
  getMousePos (boundingClientRect ev) (nativeEvent ev) = throw ->
  run_call (handleInteractionStart snap ev) s
  = if negb (has_image snap) || secondary_button (nativeEvent ev) then (s, [])
    else (s, [preventDefault]).
Proof.
  intros E. unfold handleInteractionStart. rewrite E.
  destruct (negb (has_image snap) || secondary_button (nativeEvent ev));
    reflexivity.
Qed.

Lemma handleInteractionMove_throw (snap s : State) (ev : PointerEvent) :
  getMousePos (boundingClientRect ev) (nativeEvent ev) = throw ->
  run_call (handleInteractionMove snap ev) s
  = if negb (isDrawing snap) || negb (has_image snap) then (s, [])
    else (s, [preventDefault]).
Proof.
  intros E. unfold handleInteractionMove. rewrite E.
  destruct (negb (isDrawing snap) || negb (has_image snap)); reflexivity.
Qed.

Lemma last_selection_app (l out : list effect) (assumed : bool) :
  last_selection (l ++ out) assumed
  = last_selection out (last_selection l assumed).
Proof.
  revert assumed; induction l as [|e l IH]; intros assumed; [reflexivity|].
  destruct e; simpl; apply IH.
Qed.

Section Recorder.
Context {R : Rasterizer}.

Lemma commit_fields (s : Session) (m : Call unit) (tasks : list Task) :
  state (commit s m tasks) = fst (run_call m (state s))
  /\ rendered (commit s m tasks) = fst (run_call m (state s))
  /\ log (commit s m tasks) = log s ++ snd (run_call m (state s))
  /\ pending (commit s m tasks) = tasks
  /\ props (commit s m tasks) = props s.
Proof.
  unfold commit. destruct (run_call m (state s)). repeat split.
Qed.

Lemma queue_fields (s : Session) (m : Call unit) :
  state (queue s m) = fst (run_call m (state s))
  /\ rendered (queue s m) = rendered s
  /\ log (queue s m) = log s ++ snd (run_call m (state s))
  /\ pending (queue s m) = pending s
  /\ props (queue s m) = props s /\ canvasRef (queue s m) = canvasRef s.
Proof.
  unfold queue. destruct (run_call m (state s)). repeat split.
Qed.

(** Every turn runs one callback of the component on the state; the
    pointer handlers are those of the latest render.  After the turn the
    component has rendered, unless the callback is the handler of a
    pointer-move. *)
Lemma step_callback (s s1 : Session) (e : Event) :
  step s e = Some s1 ->
  exists m : Call unit,
    state s1 = fst (run_call m (state s))
    /\ log s1 = log s ++ snd (run_call m (state s))
    /\ ((rendered s1 = state s1
         /\ (m = ret tt \/ m = no_imageFile \/ (exists img, m = img_onload img)
             \/ m = img_onerror
             \/ (exists ev, m = handleInteractionStart (rendered s) ev)
             \/ m = handleInteractionEnd (rendered s) \/ m = clearSelection))
        \/ (rendered s1 = rendered s
            /\ exists ev, m = handleInteractionMove (rendered s) ev)).
Proof.
  destruct e as [[file|]|k result|k|k w h|k|ev|ev| | |]; cbn [step];
    try (destruct (nth_error (pending s) k) as [[file|file url]|];
         try discriminate);
    intros H; inversion H; subst; clear H;
    try match goal with
    | |- context [commit ?s0 ?m ?t] =>
        destruct (commit_fields s0 m t) as (Es & Er & El & _); exists m;
        rewrite Es, Er, El; split; [reflexivity|]; split; [reflexivity|];
        left; split; [reflexivity|]; eauto 12
    end.
  destruct (queue_fields s (handleInteractionMove (rendered s) ev))
    as (Es & Er & El & _).
  exists (handleInteractionMove (rendered s) ev). rewrite Es, Er, El.
  split; [reflexivity|]. split; [reflexivity|]. right. eauto.
Qed.

Lemma run_app (l1 l2 : list Event) (s : Session) :
  run s (l1 ++ l2)
  = match run s l1 with Some s1 => run s1 l2 | None => None end.
Proof.
  revert s; induction l1 as [|e l1 IH]; intros s; simpl; [reflexivity|].
  destruct (step s e); [apply IH | reflexivity].
Qed.

(** A run whose outcome is known through a view of the final session. *)
Lemma run_computes {A} (view : Session -> A) (s : Session)
  (trace : list Event) (a : A) :
  option_map view (run s trace) = Some a ->
  exists ses : Session, run s trace = Some ses /\ view ses = a.
Proof.
  destruct (run s trace) as [ses|]; cbn; intros H; [|discriminate].
  injection H as <-. eauto.
Qed.

Lemma run_invariant (I : Session -> Prop) :
  (forall (s s1 : Session) (e : Event), step s e = Some s1 -> I s -> I s1) ->
  forall (trace : list Event) (s s1 : Session),
    run s trace = Some s1 -> I s -> I s1.
Proof.
  intros Hkeep trace. induction trace as [|e rest IH]; intros s s1; simpl.
  - intros H; inversion H; subst; auto.
  - destruct (step s e) as [s2|] eqn:E; [|discriminate].
    intros Hrun HI. apply (IH s2 s1 Hrun). eapply Hkeep; eauto.
Qed.

Lemma mounted_ok (maxW maxH : number) : session_ok (mounted maxW maxH).
Proof.
  unfold session_ok, ahead_by_moves, strokes_ok, active_stroke_ok. cbn.
  repeat split; try constructor. exists []. reflexivity.
Qed.

(** What the callbacks that are followed by a render leave of a state
    that is the latest render followed by moves. *)
Lemma callback_ok (snap s : State) (l : list effect) (m : Call unit) :
  ahead_by_moves snap s -> strokes_ok s -> active_stroke_ok s ->
  last_selection l false = (0 <? List.length (drawingPaths s))%nat ->
  (m = ret tt \/ m = no_imageFile \/ (exists img, m = img_onload img)
   \/ m = img_onerror
   \/ (exists ev, m = handleInteractionStart snap ev)
   \/ m = handleInteractionEnd snap \/ m = clearSelection) ->
  strokes_ok (fst (run_call m s)) /\ active_stroke_ok (fst (run_call m s))
  /\ last_selection (l ++ snd (run_call m s)) false
     = (0 <? List.length (drawingPaths (fst (run_call m s))))%nat.
Proof.
  intros (Hi & Hd & Hdr & pts & Hc) Hok Ha Hl Hm.
  rewrite last_selection_app, Hl.
  unfold strokes_ok, active_stroke_ok in *.
  destruct Hm as [->|[->|[[img ->]|[->|[[ev ->]|[->| ->]]]]]].
  - cbn. auto.
  - cbn. split; [constructor|]. split; [exact Ha | reflexivity].
  - cbn. split; [constructor|]. split; [exact Ha | reflexivity].
  - cbn. split; [constructor|]. split; [exact Ha | reflexivity].
  - destruct (getMousePos_cases (boundingClientRect ev) (nativeEvent ev))
      as [E|[pos E]].
    + rewrite (handleInteractionStart_throw snap s ev E).
      destruct (negb _ || _); cbn; auto.
    + rewrite (handleInteractionStart_at snap s ev pos E).
      destruct (negb _ || _); cbn; [auto|].
      split; [exact Hok|]. split; [discriminate | reflexivity].
  - rewrite handleInteractionEnd_at.
    destruct (negb _ || _); cbn [fst snd]; [cbn; auto|].
    destruct (1 <? List.length (currentPath snap))%nat eqn:E; cbn.
    + apply Nat.ltb_lt in E. split; [|split; reflexivity].
      apply Forall_app. split; [rewrite <- Hd; exact Hok|].
      constructor; [lia | constructor].
    + split; [exact Hok|]. split; reflexivity.
  - cbn. split; [constructor|]. split; reflexivity.
Qed.

(** What the handler of a pointer-move leaves of it. *)
Lemma move_ok (snap s : State) (l : list effect) (ev : PointerEvent) :
  ahead_by_moves snap s -> strokes_ok s -> active_stroke_ok s ->
  last_selection l false = (0 <? List.length (drawingPaths s))%nat ->
  let s1 := fst (run_call (handleInteractionMove snap ev) s) in
  ahead_by_moves snap s1 /\ strokes_ok s1 /\ active_stroke_ok s1
  /\ last_selection (l ++ snd (run_call (handleInteractionMove snap ev) s)) false
     = (0 <? List.length (drawingPaths s1))%nat.
Proof.
  intros (Hi & Hd & Hdr & pts & Hc) Hok Ha Hl. cbv zeta.
  rewrite last_selection_app, Hl.
  assert (Hsame : ahead_by_moves snap s)
    by (repeat split; auto; exists pts; exact Hc).
  unfold strokes_ok, active_stroke_ok in *.
  destruct (getMousePos_cases (boundingClientRect ev) (nativeEvent ev))
    as [E|[pos E]].
  - rewrite (handleInteractionMove_throw snap s ev E).
    destruct (negb _ || _); cbn; auto.
  - rewrite (handleInteractionMove_at snap s ev pos E).
    destruct (negb (isDrawing snap) || negb (has_image snap)) eqn:G;
      cbn; [auto|].
    apply orb_false_iff in G as [G _]. apply negb_false_iff in G.
    split.
    + unfold ahead_by_moves. cbn. repeat split; auto.
      exists (pts ++ [pos]). rewrite Hc, app_assoc. reflexivity.
    + split; [exact Hok|]. split; [|reflexivity].
      rewrite Hdr, G. intros H. apply app_eq_nil in H as [_ H]. discriminate.
Qed.

Lemma step_ok (s s1 : Session) (e : Event) :
  step s e = Some s1 -> session_ok s -> session_ok s1.
Proof.
  intros Hstep (Hah & Hok & Ha & Hl).
  destruct (step_callback _ _ _ Hstep) as (m & Es & El & [[Er Hm]|[Er [ev ->]]]).
  - destruct (callback_ok (rendered s) (state s) (log s) m Hah Hok Ha Hl)
      as (H1 & H2 & H3).
    { destruct Hm as [H|[H|[H|[H|[H|[H|H]]]]]]; auto 10. }
    unfold session_ok. rewrite Er, Es, El.
    split; [|auto]. repeat split. exists []. symmetry. apply app_nil_r.
  - destruct (move_ok (rendered s) (state s) (log s) ev Hah Hok Ha Hl)
      as (H0 & H1 & H2 & H3).
    unfold session_ok. rewrite Er, Es, El. auto.
Qed.

Lemma run_ok (trace : list Event) (s s1 : Session) :
  run s trace = Some s1 -> session_ok s -> session_ok s1.
Proof. apply (run_invariant session_ok step_ok). Qed.

End Recorder.

(** C2, as stated, fails: the active stroke is not reset in all cases,
    and a stroke of two points is not always appended.  In
    [failed_decode_while_drawing] the pointer-up finds a stroke of two
    points in progress and no image; the handler returns at its guard, so
    the stroke is neither committed nor reset and drawing stays on.  In
    [up_before_render] the pointer-up comes before the move is rendered;
    the handler reads the one point of its render, so nothing is committed
    and the host is not called, although two points are recorded. *)
Lemma pointer_up_without_reset :
  (exists before after : @Session mono,
      run (mounted default_maxDisplayWidth default_maxDisplayHeight)
        (firstn 9 failed_decode_while_drawing) = Some before
      /\ isDrawing (state before) = true
      /\ currentPath (state before) = [pt 10 10; pt 50 10]
      /\ step before PointerEnd = Some after
      /\ currentPath (state after) = [pt 10 10; pt 50 10]
      /\ isDrawing (state after) = true
      /\ drawingPaths (state after) = []
      /\ log after = log before)
  /\ (exists before after : @Session mono,
         run (mounted default_maxDisplayWidth default_maxDisplayHeight)
           (firstn 5 up_before_render) = Some before
         /\ isDrawing (state before) = true
         /\ image (state before) = Some imgA
         /\ currentPath (state before) = [pt 10 10; pt 50 10]
         /\ step before PointerEnd = Some after
         /\ drawingPaths (state after) = []
         /\ log after = log before ++ [preventDefault]).
Proof.
  split.
  - destruct (run_computes (R := mono)
                (fun ses => (isDrawing (state ses), currentPath (state ses), log ses))
                (mounted default_maxDisplayWidth default_maxDisplayHeight)
                (firstn 9 failed_decode_while_drawing)
                (true, [pt 10 10; pt 50 10],
                 [onSelectionChange false; preventDefault; preventDefault;
                  console_error "Error loading image source.";
                  onSelectionChange false]))
      as (before & Hb & Hv); [vm_compute; reflexivity|].
    destruct (run_computes (R := mono)
                (fun ses => (isDrawing (state ses), currentPath (state ses),
                             drawingPaths (state ses), log ses))
                (mounted default_maxDisplayWidth default_maxDisplayHeight)
                failed_decode_while_drawing
                (true, [pt 10 10; pt 50 10], [],
                 [onSelectionChange false; preventDefault; preventDefault;
                  console_error "Error loading image source.";
                  onSelectionChange false]))
      as (after & Ha & Hw); [vm_compute; reflexivity|].
    change failed_decode_while_drawing
      with (firstn 9 failed_decode_while_drawing ++ [PointerEnd]) in Ha.
    rewrite run_app, Hb in Ha. cbn [run step] in Ha.
    injection Hv as Hv1 Hv2 Hv3. injection Hw as Hw1 Hw2 Hw3 Hw4.
    exists before, after. split; [exact Hb|]. split; [exact Hv1|].
    split; [exact Hv2|]. split; [exact Ha|]. split; [exact Hw2|].
    split; [exact Hw1|]. split; [exact Hw3|]. congruence.
  - destruct (run_computes (R := mono)
                (fun ses => (isDrawing (state ses), image (state ses),
                             currentPath (state ses), log ses))
                (mounted default_maxDisplayWidth default_maxDisplayHeight)
                (firstn 5 up_before_render)
                (true, Some imgA, [pt 10 10; pt 50 10],
                 [onSelectionChange false; preventDefault; preventDefault]))
      as (before & Hb & Hv); [vm_compute; reflexivity|].
    destruct (run_computes (R := mono)
                (fun ses => (drawingPaths (state ses), log ses))
                (mounted default_maxDisplayWidth default_maxDisplayHeight)
                up_before_render
                ([],
                 [onSelectionChange false; preventDefault; preventDefault;
                  preventDefault]))
      as (after & Ha & Hw); [vm_compute; reflexivity|].
    change up_before_render
      with (firstn 5 up_before_render ++ [PointerEnd]) in Ha.
    rewrite run_app, Hb in Ha. cbn [run step] in Ha.
    injection Hv as Hv1 Hv2 Hv3 Hv4. injection Hw as Hw1 Hw2.
    exists before, after. split; [exact Hb|]. split; [exact Hv1|].
    split; [exact Hv2|]. split; [exact Hv3|]. split; [exact Ha|].
    split; [exact Hw1|]. rewrite Hw2, Hv4. reflexivity.
Qed.

(** C2, amended.  No stroke with fewer than two points is ever committed:
    from the mounted component, whatever the events and whenever React
    renders, every committed stroke has at least two points.  When the
    latest render is up to date and shows a stroke in progress on an
    image, the pointer-up resets the active stroke and the drawing flag;
    with fewer than two points recorded (one, for a pointer-down followed
    by a pointer-up) the committed strokes are unchanged and the host is
    not called; with two or more the stroke goes to the end of the
    committed strokes and the host is called with [newPaths.length > 0],
    which is true.  When the latest render shows no stroke in progress or
    no image, the pointer-up is ignored: nothing is committed, nothing is
    reset and the host is not called. *)
Theorem committed_strokes_have_two_points :
  (forall (R : Rasterizer) (maxW maxH : number) (trace : list Event)
          (ses : Session),
      run (mounted maxW maxH) trace = Some ses -> strokes_ok (state ses))
  /\ (forall (R : Rasterizer) (ses : Session),
         rendered ses = state ses ->
         isDrawing (state ses) = true -> has_image (state ses) = true ->
         exists (ses1 : Session) (out : list effect),
           step ses PointerEnd = Some ses1 /\ log ses1 = log ses ++ out
           /\ currentPath (state ses1) = [] /\ isDrawing (state ses1) = false
           /\ image (state ses1) = image (state ses)
           /\ ((List.length (currentPath (state ses)) < 2)%nat ->
               drawingPaths (state ses1) = drawingPaths (state ses)
               /\ out = [preventDefault])
           /\ ((2 <= List.length (currentPath (state ses)))%nat ->
               drawingPaths (state ses1)
               = drawingPaths (state ses) ++ [currentPath (state ses)]
               /\ out = [preventDefault;
                         onSelectionChange
                           (0 <? List.length (drawingPaths (state ses1)))%nat]
               /\ (0 <? List.length (drawingPaths (state ses1)))%nat = true))
  /\ (forall (R : Rasterizer) (ses : Session),
         isDrawing (rendered ses) = false \/ has_image (rendered ses) = false ->
         exists ses1 : Session,
           step ses PointerEnd = Some ses1 /\ state ses1 = state ses
           /\ log ses1 = log ses).
Proof.
  split; [|split].
  - intros R maxW maxH trace ses Hrun.
    apply (run_ok trace _ _ Hrun (mounted_ok maxW maxH)).
  - intros R ses Hr Hd Hi.
    exists (commit ses (handleInteractionEnd (rendered ses)) (pending ses)),
      (snd (run_call (handleInteractionEnd (rendered ses)) (state ses))).
    destruct (commit_fields ses (handleInteractionEnd (rendered ses))
                (pending ses)) as (Es & _ & El & _).
    split; [reflexivity|]. split; [exact El|]. rewrite Es, Hr.
    rewrite handleInteractionEnd_run, Hd, Hi. cbn [negb orb].
    destruct (1 <? List.length (currentPath (state ses)))%nat eqn:E;
      cbn [fst snd currentPath isDrawing image drawingPaths].
    + apply Nat.ltb_lt in E.
      split; [reflexivity|]. split; [reflexivity|]. split; [reflexivity|].
      split; [intros Hlt; lia|]. intros _.
      split; [reflexivity|]. split; [reflexivity|].
      rewrite length_app. cbn [List.length]. apply Nat.ltb_lt. lia.
    + apply Nat.ltb_ge in E.
      split; [reflexivity|]. split; [reflexivity|]. split; [reflexivity|].
      split; [|intros Hge; lia]. intros _. split; reflexivity.
  - intros R ses H.
    exists (commit ses (handleInteractionEnd (rendered ses)) (pending ses)).
    destruct (commit_fields ses (handleInteractionEnd (rendered ses))
                (pending ses)) as (Es & _ & El & _).
    split; [reflexivity|]. rewrite Es, El, handleInteractionEnd_at.
    assert (G : negb (isDrawing (rendered ses)) || negb (has_image (rendered ses))
                = true)
      by (destruct H as [-> | ->]; [reflexivity | apply orb_true_r]).
    rewrite G. cbn [fst snd]. split; [reflexivity | apply app_nil_r].
Qed.

Lemma committed_strokes_have_two_points_witness :
  (exists ses : @Session mono,
      run (mounted default_maxDisplayWidth default_maxDisplayHeight)
        tap_then_stroke = Some ses
      /\ strokes_ok (state ses)
      /\ drawingPaths (state ses) = [[pt 10 10; pt 50 10; pt 50 50]]
      /\ host_view (log ses) = [onSelectionChange false; onSelectionChange true])
  /\ (let s := {| image := Some imgA; drawingPaths := []; isDrawing := true;
                  currentPath := [pt 10 10] |} in
      let ses : @Session mono :=
        {| props := {| imageFile := Some fileA;
                       maxDisplayWidth := default_maxDisplayWidth;
                       maxDisplayHeight := default_maxDisplayHeight |};
           state := s; rendered := s; canvasRef := Some fresh_canvas;
           pending := []; log := [] |} in
      exists ses1 : @Session mono,
        step ses PointerEnd = Some ses1
        /\ drawingPaths (state ses1) = [] /\ log ses1 = [preventDefault]).
Proof.
  split.
  - destruct (run_computes (R := mono)
                (fun ses => (drawingPaths (state ses), host_view (log ses)))
                (mounted default_maxDisplayWidth default_maxDisplayHeight)
                tap_then_stroke
                ([[pt 10 10; pt 50 10; pt 50 50]],
                 [onSelectionChange false; onSelectionChange true]))
      as (ses & Hrun & Hview); [vm_compute; reflexivity|].
    exists ses. split; [exact Hrun|]. split.
    + apply (proj1 committed_strokes_have_two_points mono
               default_maxDisplayWidth default_maxDisplayHeight tap_then_stroke).
      exact Hrun.
    + injection Hview as Hd Hl. split; assumption.
  - intros s ses.
    destruct (proj1 (proj2 committed_strokes_have_two_points) mono ses
                eq_refl eq_refl eq_refl)
      as (ses1 & out & Hstep & Hlog & _ & _ & _ & Hshort & _).
    destruct Hshort as [Hd Hout]; [simpl; lia|].
    exists ses1. split; [exact Hstep|]. split; [exact Hd|].
    rewrite Hlog, Hout. reflexivity.
Defined.

(** C10.  A pointer-down on an image with the primary contact, while a
    stroke is in progress, replaces the active stroke by the new point
    alone.  The committed strokes are unchanged and the host is not
    called; the state that results is the same whatever points the
    replaced stroke had, and ending the gesture at once commits nothing. *)
Theorem pointer_down_restarts_stroke :
  forall (s : State) (ev : PointerEvent) (pos : Point),
    isDrawing s = true -> has_image s = true ->
    secondary_button (nativeEvent ev) = false ->
    getMousePos (boundingClientRect ev) (nativeEvent ev) = ret pos ->
    let s1 := fst (run_call (handleInteractionStart s ev) s) in
    s1 = {| image := image s; drawingPaths := drawingPaths s;
            isDrawing := true; currentPath := [pos] |}
    /\ snd (run_call (handleInteractionStart s ev) s) = [preventDefault]
    /\ (forall discarded : Path,
           let s' := {| image := image s; drawingPaths := drawingPaths s;
                        isDrawing := true; currentPath := discarded |} in
           fst (run_call (handleInteractionStart s' ev) s') = s1)
    /\ drawingPaths (fst (run_call (handleInteractionEnd s1) s1))
       = drawingPaths s.
Proof.
  intros s ev pos Hd Hi Hb Hpos. cbv zeta.
  rewrite (handleInteractionStart_run s ev pos Hpos), Hi, Hb. cbn [negb orb fst snd].
  repeat split.
  - intros discarded. rewrite (handleInteractionStart_run _ ev pos Hpos).
    unfold has_image in *. cbn [image drawingPaths]. destruct (image s); [|discriminate].
    rewrite Hb. reflexivity.
  - rewrite handleInteractionEnd_run. unfold has_image in *. cbn.
    destruct (image s); [reflexivity|discriminate].
Qed.

Lemma pointer_down_restarts_stroke_witness :
  let s := {| image := Some imgA; drawingPaths := [[pt 1 1; pt 2 2]];
              isDrawing := true; currentPath := [pt 10 10; pt 50 10] |} in
  fst (run_call (handleInteractionStart s (mouse_at 0 70 70)) s)
  = {| image := Some imgA; drawingPaths := [[pt 1 1; pt 2 2]];
       isDrawing := true; currentPath := [pt 70 70] |}.
Proof.
  intros s.
  apply (pointer_down_restarts_stroke s (mouse_at 0 70 70) (pt 70 70));
    reflexivity.
Defined.

Lemma clearSelection_run (s : State) :
  run_call clearSelection s
  = ({| image := image s; drawingPaths := []; isDrawing := false;
        currentPath := [] |},
     [onSelectionChange false]).
Proof. reflexivity. Qed.

(** C6.  [clearSelection], from any state, leaves no committed stroke, no
    active stroke and the drawing flag off (the recorder is idle), and
    calls the host with false and with nothing else. *)
Theorem clearSelection_resets :
  forall s : State,
    let s1 := fst (run_call clearSelection s) in
    drawingPaths s1 = [] /\ currentPath s1 = [] /\ isDrawing s1 = false
    /\ snd (run_call clearSelection s) = [onSelectionChange false].
Proof. intros s. rewrite clearSelection_run. repeat split. Qed.

(* ================================================================== *)
(** ** The image loader *)

Lemma img_onload_run (img : HTMLImageElement) (s : State) :
  run_call (img_onload img) s
  = ({| image := Some img; drawingPaths := []; isDrawing := isDrawing s;
        currentPath := currentPath s |},
     [onSelectionChange false]).
Proof. reflexivity. Qed.

Lemma img_onerror_run (s : State) :
  run_call img_onerror s
  = ({| image := None; drawingPaths := []; isDrawing := isDrawing s;
        currentPath := currentPath s |},
     [console_error "Error loading image source."; onSelectionChange false]).
Proof. reflexivity. Qed.

(** C3, on the code.  With a stroke in progress, [img.onload] clears the
    committed strokes and calls the host with false, but leaves the active
    stroke and the drawing flag as they were; the next pointer-up then
    commits the stroke begun on the old image onto the new one.
    [clearSelection] resets both. *)
Theorem img_onload_keeps_active_stroke :
  let s := {| image := Some imgA; drawingPaths := [[pt 1 1; pt 2 2]];
              isDrawing := true; currentPath := [pt 10 10; pt 50 10] |} in
  let s1 := fst (run_call (img_onload imgB) s) in
  s1 = {| image := Some imgB; drawingPaths := []; isDrawing := true;
          currentPath := [pt 10 10; pt 50 10] |}
  /\ snd (run_call (img_onload imgB) s) = [onSelectionChange false]
  /\ run_call (handleInteractionEnd s1) s1
     = ({| image := Some imgB; drawingPaths := [[pt 10 10; pt 50 10]];
           isDrawing := false; currentPath := [] |},
        [preventDefault; onSelectionChange true])
  /\ currentPath (fst (run_call clearSelection s)) = [].
Proof. repeat split. Qed.

(** C4, as stated, fails: a decode failure reaches the host exactly as a
    success does, by one call [onSelectionChange(false)]; the error message
    goes to the console. *)
Lemma decode_failure_not_signalled :
  let s := {| image := Some imgA; drawingPaths := [[pt 1 1; pt 2 2]];
              isDrawing := false; currentPath := [] |} in
  host_view (snd (run_call img_onerror s))
  = host_view (snd (run_call (img_onload imgB) s))
  /\ host_view (snd (run_call img_onerror s)) = [onSelectionChange false].
Proof. split; reflexivity. Qed.

(** C4, amended.  When the source cannot be decoded, [img.onerror] logs
    the failure to the console, empties the bitmap, clears the committed
    strokes and calls the host with false; the host is told nothing
    else. *)
Theorem img_onerror_empties_session :
  forall s : State,
    let s1 := fst (run_call img_onerror s) in
    let out := snd (run_call img_onerror s) in
    image s1 = None /\ drawingPaths s1 = []
    /\ out = [console_error "Error loading image source.";
              onSelectionChange false]
    /\ host_view out = [onSelectionChange false].
Proof. intros s. repeat split. Qed.

(* ================================================================== *)
(** ** The canvas *)

Lemma point_eta (p : Point) : mkPoint (x p) (y p) = p.
Proof. destruct p; reflexivity. Qed.

(** A number equal to the width or the height of a canvas converts back
    to it. *)
Lemma reflect_of_equal (default w : Z) (v : number) :
  0 <= w <= 2147483647 ->
  JS.neqb (JS.of_Z w) v = false -> reflect_unsigned_long default v = w.
Proof.
  intros Hw H. unfold JS.neqb, JS.eqb, SFeqb in H.
  apply negb_false_iff in H.
  assert (B : 2147483647 < 2 ^ 32) by reflexivity.
  assert (T : JS.truncate v = w).
  { destruct (Z.eq_dec w 0) as [->|Hz].
    - change (JS.of_Z 0) with (S754_zero false) in H.
      destruct v as [sv|[]| |[] mv ev]; try discriminate; reflexivity.
    - pose proof (floor_of_Z w ltac:(lia)) as F.
      destruct (of_Z_exact w ltac:(lia)) as (m & e & E & _).
      rewrite E in H, F.
      destruct v as [sv|[]| |[] mv ev]; try discriminate.
      cbn in H. destruct (e ?= ev) eqn:Ee; try discriminate.
      apply Z.compare_eq in Ee. subst ev.
      destruct (Pos.compare_cont Eq m mv) eqn:Em; try discriminate.
      apply Pos.compare_eq in Em. subst mv. exact F. }
  unfold reflect_unsigned_long, JS.ToUint32. rewrite T.
  rewrite Z.mod_small by lia.
  destruct (w <=? 2147483647) eqn:L; [reflexivity|].
  apply Z.leb_gt in L. lia.
Qed.

Section CanvasFacts.
Context {R : Rasterizer}.

Lemma lineTo_fold (rest acc : Path) (c : HTMLCanvasElement) :
  fold_left (fun c pi => c |> lineTo (x pi) (y pi)) rest
    (set_subpaths (fun _ => [acc]) c)
  = set_subpaths (fun _ => [acc ++ rest]) c.
Proof.
  revert acc; induction rest as [|p rest IH]; intros acc; cbn [fold_left].
  - now rewrite app_nil_r.
  - change (lineTo (x p) (y p) (set_subpaths (fun _ => [acc]) c))
      with (set_subpaths (fun _ => [acc ++ [mkPoint (x p) (y p)]]) c).
    rewrite point_eta, IH, <- app_assoc. reflexivity.
Qed.

Lemma strokePolyline_eq (path : Path) (c : HTMLCanvasElement) :
  path <> [] ->
  strokePolyline path c = stroke (set_subpaths (fun _ => [path]) c).
Proof.
  destruct path as [|p0 rest]; [congruence|]. intros _.
  unfold strokePolyline.
  change (c |> beginPath |> moveTo (x p0) (y p0))
    with (set_subpaths (fun _ => [[mkPoint (x p0) (y p0)]]) c).
  rewrite point_eta, lineTo_fold. reflexivity.
Qed.

Lemma fold_committed (paths : list Path) (c : HTMLCanvasElement) :
  fold_left
    (fun c path =>
       if (List.length path <? 2)%nat then c else strokePolyline path c)
    paths c
  = fold_left (fun c path => stroke (set_subpaths (fun _ => [path]) c))
      (filter (fun path => negb (List.length path <? 2)%nat) paths) c.
Proof.
  revert c; induction paths as [|path rest IH]; intros c; cbn [fold_left filter];
    [reflexivity|].
  destruct (List.length path <? 2)%nat eqn:E; cbn [negb fold_left]; [apply IH|].
  rewrite strokePolyline_eq by (intros ->; discriminate E). apply IH.
Qed.

(** The two stroke passes of the draw effect are one pass over
    [stroked s]. *)
Lemma stroke_passes (s : State) (c : HTMLCanvasElement) :
  (fun c =>
     if isDrawing s && (1 <? List.length (currentPath s))%nat
     then strokePolyline (currentPath s) c else c)
    (fold_left
       (fun c path =>
          if (List.length path <? 2)%nat then c else strokePolyline path c)
       (drawingPaths s) c)
  = fold_left (fun c path => stroke (set_subpaths (fun _ => [path]) c))
      (stroked s) c.
Proof.
  unfold stroked. rewrite fold_left_app, fold_committed. cbv beta.
  destruct (isDrawing s); cbn [andb]; [|reflexivity].
  destruct (1 <? List.length (currentPath s))%nat eqn:E; [|reflexivity].
  rewrite strokePolyline_eq by (intros H; rewrite H in E; discriminate E).
  reflexivity.
Qed.

Lemma fold_stroke_spec (paths : list Path) (c : HTMLCanvasElement) :
  let c' :=
    fold_left (fun c path => stroke (set_subpaths (fun _ => [path]) c))
      paths c in
  width c' = width c /\ height c' = height c
  /\ ctx c' = match paths with
              | [] => ctx c
              | _ :: _ => ctx_subpaths (fun _ => [last paths []]) (ctx c)
              end
  /\ forall col row,
       bitmap c' col row
       = fold_left
           (fun px path =>
              over (strokePixel
                      (mkStrokeStyle (strokeStyle (ctx c)) (lineWidth (ctx c))
                         (lineCap (ctx c)) (lineJoin (ctx c)))
                      [path] col row) px)
           paths (bitmap c col row).
Proof.
  revert c; induction paths as [|path rest IH]; intros c; cbn [fold_left].
  - repeat split.
  - destruct (IH (stroke (set_subpaths (fun _ => [path]) c)))
      as (Hw & Hh & Hk & Hb).
    cbv zeta. rewrite Hw, Hh, Hk. repeat split.
    + destruct rest; reflexivity.
    + intros col row. rewrite Hb. reflexivity.
Qed.

Lemma reflect_unsigned_long_range (default : Z) (v : number) :
  0 <= default <= 2147483647 ->
  0 <= reflect_unsigned_long default v <= 2147483647.
Proof.
  intros Hd. unfold reflect_unsigned_long.
  destruct (JS.ToUint32 v <=? 2147483647) eqn:E; [|exact Hd].
  apply Z.leb_le in E. split; [|exact E].
  unfold JS.ToUint32. apply Z.mod_pos_bound. lia.
Qed.

Lemma resized_valid (w h : number) : valid_canvas (resized w h).
Proof.
  split; apply reflect_unsigned_long_range; lia.
Qed.

(** The rectangle [(0, 0, canvas.width, canvas.height)] contains every
    pixel of the bitmap. *)
Lemma covers_full (w h col row : Z) :
  w <= 2147483647 -> h <= 2147483647 ->
  0 <= col < w -> 0 <= row < h ->
  covers (JS.of_Z 0) (JS.of_Z 0) (JS.of_Z w) (JS.of_Z h) col row = true.
Proof.
  intros Hw Hh Hc Hr. unfold covers.
  assert (B : 2147483647 < 2 ^ 53) by reflexivity.
  pose proof (floor_of_Z w ltac:(lia)) as Fw.
  pose proof (floor_of_Z h ltac:(lia)) as Fh.
  destruct (of_Z_exact w ltac:(lia)) as (mw & ew & Ew & _).
  destruct (of_Z_exact h ltac:(lia)) as (mh & eh & Eh & _).
  rewrite Ew in *. rewrite Eh in *.
  change (JS.add (JS.of_Z 0) (S754_finite false mw ew))
    with (S754_finite false mw ew).
  change (JS.add (JS.of_Z 0) (S754_finite false mh eh))
    with (S754_finite false mh eh).
  rewrite Fw, Fh.
  change (JS.ceil (JS.of_Z 0)) with 0.
  cbn [JS.is_finite JS.of_Z binary_normalize andb].
  repeat (apply andb_true_intro; split); apply Z.leb_le; lia.
Qed.

Lemma needs_resize_false (w h : number) (c : HTMLCanvasElement) :
  valid_canvas c -> needs_resize w h c = false ->
  reflect_unsigned_long 300 w = width c
  /\ reflect_unsigned_long 150 h = height c.
Proof.
  intros [Vw Vh] H. unfold needs_resize in H.
  apply orb_false_iff in H as [Hw Hh].
  split; apply reflect_of_equal; assumption.
Qed.

Lemma In_Zrange (n z : Z) : In z (Zrange n) -> 0 <= z < n.
Proof.
  unfold Zrange. intros H. apply in_map_iff in H as (k & <- & Hk).
  apply in_seq in Hk. lia.
Qed.

Lemma drawAnnotated_spec (props : Props) (s : State) (img : HTMLImageElement)
  (c : HTMLCanvasElement) :
  let dw := displayWidth (maxDisplayWidth props) (maxDisplayHeight props) img in
  let dh := displayHeight (maxDisplayWidth props) (maxDisplayHeight props) img in
  let c1 :=
    if needs_resize dw dh c then resized dw dh
    else clearRect (JS.of_Z 0) (JS.of_Z 0) (get_width c) (get_height c) c in
  let d := drawAnnotated props s img c in
  width d = width c1 /\ height d = height c1
  /\ ctx d = annotated_ctx s (ctx c1)
  /\ forall col row,
       bitmap d col row = annotated_pixel props s img col row (bitmap c1 col row).
Proof.
  intros dw dh c1 d. subst d. unfold drawAnnotated. fold dw dh.
  change (if JS.neqb (get_width c) dw || JS.neqb (get_height c) dh
          then c |> set_width dw |> set_height dh
          else c |> (fun c0 => clearRect (JS.of_Z 0) (JS.of_Z 0)
                                 (get_width c0) (get_height c0) c0))
    with c1.
  rewrite stroke_passes.
  match goal with
  | |- context [fold_left _ (stroked s) ?c0] =>
      destruct (fold_stroke_spec (stroked s) c0) as (Hw & Hh & Hk & Hb)
  end.
  cbv zeta in Hw, Hh, Hk, Hb. rewrite Hw, Hh, Hk.
  split; [reflexivity|]. split; [reflexivity|]. split; [reflexivity|].
  intros col row. rewrite Hb. reflexivity.
Qed.

Lemma drawPlaceholder_spec (props : Props) (c : HTMLCanvasElement) :
  let pw := maxDisplayWidth props in
  let ph := JS.Math_max [JS.of_Z 200; maxDisplayHeight props] in
  let c1 := if needs_resize pw ph c then resized pw ph else c in
  let d := drawPlaceholder props c in
  width d = width c1 /\ height d = height c1
  /\ ctx d = placeholder_ctx (ctx c1)
  /\ forall col row,
       bitmap d col row
       = over (textPixel (mkTextStyle "#94A3B8" "center" "16px Inter, sans-serif")
                 "Image display area"
                 (JS.div (get_width c1) (JS.of_Z 2))
                 (JS.div (get_height c1) (JS.of_Z 2)) col row)
           (if covers (JS.of_Z 0) (JS.of_Z 0) (get_width c1) (get_height c1)
                 col row
            then solid "#334155" else bitmap c1 col row).
Proof.
  intros pw ph c1 d. subst d. unfold drawPlaceholder. fold pw ph.
  change (if JS.neqb (get_width c) pw || JS.neqb (get_height c) ph
          then c |> set_width pw |> set_height ph else c)
    with c1.
  repeat split.
Qed.

Lemma needs_resize_dims (w h : number) (c c' : HTMLCanvasElement) :
  width c = width c' -> height c = height c' ->
  needs_resize w h c = needs_resize w h c'.
Proof.
  unfold needs_resize, get_width, get_height. now intros -> ->.
Qed.

Lemma annotated_ctx_idem (s : State) (k : Context2D) :
  annotated_ctx s (annotated_ctx s k) = annotated_ctx s k.
Proof.
  unfold annotated_ctx. destruct (stroked s); reflexivity.
Qed.

Lemma drawAnnotated_idempotent (props : Props) (s : State)
  (img : HTMLImageElement) (c : HTMLCanvasElement) :
  valid_canvas c ->
  canvas_equiv (drawAnnotated props s img (drawAnnotated props s img c))
               (drawAnnotated props s img c).
Proof.
  intros [Vw Vh].
  set (dw := displayWidth (maxDisplayWidth props) (maxDisplayHeight props) img).
  set (dh := displayHeight (maxDisplayWidth props) (maxDisplayHeight props) img).
  set (d := drawAnnotated props s img c).
  destruct (drawAnnotated_spec props s img c) as (W1 & H1 & K1 & B1).
  destruct (drawAnnotated_spec props s img d) as (W2 & H2 & K2 & B2).
  fold dw dh d in W1, H1, K1, B1, W2, H2, K2, B2. cbv zeta in *.
  destruct (needs_resize dw dh d) eqn:T2.
  - destruct (needs_resize dw dh c) eqn:T1.
    + unfold canvas_equiv. rewrite W2, H2, K2, W1, H1, K1.
      repeat split. intros col row _ _. now rewrite B2, B1.
    + rewrite (needs_resize_dims dw dh d c W1 H1) in T2. congruence.
  - assert (Vd : valid_canvas d).
    { unfold valid_canvas. rewrite W1, H1.
      destruct (needs_resize dw dh c); [apply resized_valid | split; assumption]. }
    destruct Vd as [Vdw Vdh].
    unfold canvas_equiv. rewrite W2, H2, K2.
    split; [reflexivity|]. split; [reflexivity|].
    split; [cbn [clearRect with_bitmap ctx]; rewrite K1; apply annotated_ctx_idem|].
    cbn [clearRect with_bitmap width height]. intros col row Hc Hr.
    rewrite B2, B1. f_equal.
    cbn [clearRect with_bitmap bitmap]. unfold get_width, get_height.
    rewrite covers_full by lia.
    destruct (needs_resize dw dh c); [reflexivity|].
    cbn [clearRect with_bitmap bitmap width height] in *.
    unfold get_width, get_height. rewrite covers_full by lia. reflexivity.
Qed.

Lemma drawPlaceholder_idempotent (props : Props) (c : HTMLCanvasElement) :
  valid_canvas c ->
  canvas_equiv (drawPlaceholder props (drawPlaceholder props c))
               (drawPlaceholder props c).
Proof.
  intros [Vw Vh].
  set (pw := maxDisplayWidth props).
  set (ph := JS.Math_max [JS.of_Z 200; maxDisplayHeight props]).
  set (d := drawPlaceholder props c).
  destruct (drawPlaceholder_spec props c) as (W1 & H1 & K1 & B1).
  destruct (drawPlaceholder_spec props d) as (W2 & H2 & K2 & B2).
  fold pw ph d in W1, H1, K1, B1, W2, H2, K2, B2. cbv zeta in *.
  destruct (needs_resize pw ph d) eqn:T2.
  - destruct (needs_resize pw ph c) eqn:T1.
    + unfold canvas_equiv. rewrite W2, H2, K2, W1, H1, K1.
      repeat split. intros col row _ _. now rewrite B2, B1.
    + rewrite (needs_resize_dims pw ph d c W1 H1) in T2. congruence.
  - assert (Vd : valid_canvas d).
    { unfold valid_canvas. rewrite W1, H1.
      destruct (needs_resize pw ph c); [apply resized_valid | split; assumption]. }
    destruct Vd as [Vdw Vdh].
    unfold canvas_equiv. rewrite W2, H2, K2.
    split; [reflexivity|]. split; [reflexivity|].
    split; [rewrite K1; reflexivity|].
    intros col row Hc Hr. rewrite B2, B1.
    unfold get_width, get_height. rewrite W1, H1 in *.
    rewrite !covers_full by lia. reflexivity.
Qed.

Lemma draw_valid (props : Props) (s : State) (c : HTMLCanvasElement) :
  valid_canvas c -> valid_canvas (draw props s c).
Proof.
  intros V. unfold draw, valid_canvas. destruct (image s) as [img|].
  - destruct (drawAnnotated_spec props s img c) as (W & H & _).
    cbv zeta in W, H. rewrite W, H.
    destruct (needs_resize _ _ c); [apply resized_valid | exact V].
  - destruct (drawPlaceholder_spec props c) as (W & H & _).
    cbv zeta in W, H. rewrite W, H.
    destruct (needs_resize _ _ c); [apply resized_valid | exact V].
Qed.

(** The raster [drawAnnotated] leaves on a valid canvas: the display size
    converted to [unsigned long], and at every position the composite of
    the image and of the strokes over a transparent pixel, whatever the
    canvas held before. *)
Lemma drawAnnotated_raster (props : Props) (s : State)
  (img : HTMLImageElement) (c : HTMLCanvasElement) :
  valid_canvas c ->
  let w :=
    reflect_unsigned_long 300
      (displayWidth (maxDisplayWidth props) (maxDisplayHeight props) img) in
  let h :=
    reflect_unsigned_long 150
      (displayHeight (maxDisplayWidth props) (maxDisplayHeight props) img) in
  let d := drawAnnotated props s img c in
  width d = w /\ height d = h
  /\ (forall col row,
         0 <= col < w -> 0 <= row < h ->
         bitmap d col row = annotated_pixel props s img col row transparent)
  /\ rows d = annotated_rows props s img w h.
Proof.
  intros V w h d.
  destruct (drawAnnotated_spec props s img c) as (W & H & _ & B).
  cbv zeta in W, H, B. fold d in W, H, B.
  set (dw := displayWidth (maxDisplayWidth props) (maxDisplayHeight props) img)
    in *.
  set (dh := displayHeight (maxDisplayWidth props) (maxDisplayHeight props) img)
    in *.
  assert (Hdims : width d = w /\ height d = h).
  { rewrite W, H. destruct (needs_resize dw dh c) eqn:T; [split; reflexivity|].
    destruct (needs_resize_false _ _ c V T) as [Ew Eh].
    cbn [clearRect with_bitmap width height]. split; symmetry; assumption. }
  destruct Hdims as [Ew Eh].
  assert (Hpx : forall col row,
             0 <= col < w -> 0 <= row < h ->
             bitmap d col row = annotated_pixel props s img col row transparent).
  { intros col row Hc Hr. rewrite B. f_equal.
    destruct (needs_resize dw dh c) eqn:T; [reflexivity|].
    destruct (needs_resize_false _ _ c V T) as [Fw Fh].
    destruct V as [Vw Vh].
    cbn [clearRect with_bitmap bitmap]. unfold get_width, get_height.
    fold w in Fw. fold h in Fh.
    rewrite covers_full by lia. reflexivity. }
  split; [exact Ew|]. split; [exact Eh|]. split; [exact Hpx|].
  unfold rows, annotated_rows. rewrite Ew, Eh.
  apply map_ext_in. intros row Hrow. apply map_ext_in. intros col Hcol.
  apply Hpx; apply In_Zrange; assumption.
Qed.

Lemma commit_canvas_ok (s : Session) (m : Call unit) (tasks : list Task) :
  (exists c, canvasRef s = Some c /\ valid_canvas c) ->
  canvas_ok (commit s m tasks).
Proof.
  intros (c & Ec & V). unfold canvas_ok, commit.
  destruct (run_call m (state s)) as [st out].
  cbn [canvasRef props rendered]. rewrite Ec. cbn [option_map].
  exists (draw (props s) st c). split; [reflexivity|].
  split; [apply draw_valid; exact V|]. right. exists c. split; [exact V|].
  reflexivity.
Qed.

(** After every turn the canvas holds what the draw effect made of the
    latest render. *)
Lemma step_canvas_ok (prev ses : Session) (e : Event) :
  step prev e = Some ses -> canvas_ok prev -> canvas_ok ses.
Proof.
  intros Hstep (c & Ec & V & Hc).
  assert (Hprev : exists c, canvasRef prev = Some c /\ valid_canvas c)
    by (exists c; split; assumption).
  destruct e as [[file|]|k result|k|k w h|k|ev|ev| | |]; cbn [step] in Hstep;
    try (destruct (nth_error (pending prev) k) as [[file|file url]|];
         try discriminate);
    inversion Hstep; subst; clear Hstep;
    try (apply commit_canvas_ok; exact Hprev).
  unfold canvas_ok, queue.
  destruct (run_call (handleInteractionMove (rendered prev) ev) (state prev)).
  cbn [canvasRef props rendered]. exists c. auto.
Qed.

Lemma mounted_canvas_ok (maxW maxH : number) : canvas_ok (mounted maxW maxH).
Proof.
  exists fresh_canvas. split; [reflexivity|].
  split; [unfold valid_canvas; cbn; lia|]. left. split; reflexivity.
Qed.

End CanvasFacts.

(** C8.  The draw effect is idempotent: on a canvas with valid dimensions,
    running it twice with the same props and state leaves the canvas that
    running it once leaves, pixel for pixel and with the same context.
    With an image, the bitmap is reallocated when the display size differs
    from the canvas size and cleared over its whole extent otherwise;
    without one, the placeholder fill covers the whole bitmap. *)
Theorem draw_idempotent :
  forall (R : Rasterizer) (props : Props) (s : State) (c : HTMLCanvasElement),
    valid_canvas c ->
    canvas_equiv (draw props s (draw props s c)) (draw props s c).
Proof.
  intros R props s c V. unfold draw. destruct (image s) as [img|].
  - apply drawAnnotated_idempotent; exact V.
  - apply drawPlaceholder_idempotent; exact V.
Qed.

Lemma draw_idempotent_witness :
  let props := {| imageFile := Some fileA;
                  maxDisplayWidth := default_maxDisplayWidth;
                  maxDisplayHeight := default_maxDisplayHeight |} in
  let s := {| image := Some imgA;
              drawingPaths := [[pt 10 10; pt 50 10; pt 50 50]; [pt 3 3]];
              isDrawing := true; currentPath := [pt 60 60; pt 70 70] |} in
  canvas_equiv (draw props s (draw props s (@fresh_canvas mono)))
               (draw props s (@fresh_canvas mono))
  /\ width (draw props s (@fresh_canvas mono)) = 800
  /\ height (draw props s (@fresh_canvas mono)) = 400.
Proof.
  intros props s. split; [|split; reflexivity].
  apply (draw_idempotent mono props s (@fresh_canvas mono)).
  unfold valid_canvas; simpl; lia.
Defined.


Section Stability.
Context {R : Rasterizer}.

End Stability.



(* ================================================================== *)
(** ** Export *)

(** C5, as stated, fails: with an image loaded the export is not always
    an encoding of the raster.  An image one pixel wide and 10000 high is
    displayed at scale 0.06; the width of the canvas is 0.06 truncated,
    which is 0, so the canvas has no pixels and [toDataURL] returns
    ["data:,"]: no PNG, and nothing after the comma (the service rejects
    it as invalid image data). *)
Lemma export_of_narrow_image_is_empty :
  exists (ses : @Session mono) (canvas : @HTMLCanvasElement mono),
    run (mounted default_maxDisplayWidth default_maxDisplayHeight)
      narrow_image = Some ses
    /\ image (state ses) = Some (mkImage "data:image/png;base64,QQ==" 1 10000)
    /\ canvasRef ses = Some canvas /\ width canvas = 0 /\ height canvas = 600
    /\ getAnnotatedImageDataUrl ses = Some "data:,"%string
    /\ Gemini.base64DataWithoutPrefix "data:," = Some ""%string
    /\ (forall (w h : Z) (raster : list (list (@pixel mono))),
           "data:,"%string
           <> ("data:image/png;base64," ++ encodePNG w h raster)%string).
Proof.
  eexists. eexists. split; [reflexivity|]. split; [reflexivity|].
  split; [reflexivity|]. split; [reflexivity|]. split; [reflexivity|].
  split; [reflexivity|]. split; [reflexivity|].
  intros w h raster. discriminate.
Qed.

(** C5, amended.  On the mounted component, whatever the events so far,
    [getAnnotatedImageDataUrl] returns null exactly when no image is
    loaded.  With an image loaded, the canvas has the display size
    converted to [unsigned long] and holds the composite of the latest
    render: the scaled image, then the committed strokes and the active
    stroke as that render had them.  The result is then the data URL of
    that raster: ["data:image/png;base64,"] followed by the PNG encoding
    of its rows when the canvas has pixels, and ["data:,"] when its width
    or its height is zero. *)
Theorem getAnnotatedImageDataUrl_iff_image :
  forall (R : Rasterizer) (maxW maxH : number) (trace : list Event)
         (ses : Session),
    run (mounted maxW maxH) trace = Some ses ->
    image (rendered ses) = image (state ses)
    /\ (getAnnotatedImageDataUrl ses = None <-> image (state ses) = None)
    /\ (forall img : HTMLImageElement,
           image (state ses) = Some img ->
           let w :=
             reflect_unsigned_long 300
               (displayWidth (maxDisplayWidth (props ses))
                  (maxDisplayHeight (props ses)) img) in
           let h :=
             reflect_unsigned_long 150
               (displayHeight (maxDisplayWidth (props ses))
                  (maxDisplayHeight (props ses)) img) in
           let raster :=
             map (fun row =>
                    map (fun col =>
                           annotated_pixel (props ses) (rendered ses) img
                             col row transparent)
                        (Zrange w))
                 (Zrange h) in
           exists canvas : HTMLCanvasElement,
             canvasRef ses = Some canvas
             /\ width canvas = w /\ height canvas = h
             /\ rows canvas = raster
             /\ getAnnotatedImageDataUrl ses
                = Some (if (w =? 0) || (h =? 0) then "data:,"%string
                        else ("data:image/png;base64,"
                              ++ encodePNG w h raster)%string)).
Proof.
  intros R maxW maxH trace ses Hrun.
  destruct (run_ok trace _ _ Hrun (mounted_ok maxW maxH))
    as ((Hi & _) & _).
  destruct (run_invariant canvas_ok step_canvas_ok trace _ _ Hrun
              (mounted_canvas_ok maxW maxH)) as (canvas & Ec & V & Hc).
  split; [symmetry; exact Hi|]. split.
  - unfold getAnnotatedImageDataUrl, has_image. rewrite Ec, <- Hi.
    destruct (image (state ses)); cbn [negb]; split; congruence.
  - intros img Himg w h raster.
    assert (Hr : image (rendered ses) = Some img) by congruence.
    destruct Hc as [[_ Hinit]|(c0 & V0 & Hdraw)];
      [rewrite Hinit in Hr; discriminate|].
    unfold draw in Hdraw. rewrite Hr in Hdraw.
    destruct (drawAnnotated_raster (props ses) (rendered ses) img c0 V0)
      as (Ew & Eh & _ & Erows).
    rewrite <- Hdraw in Ew, Eh, Erows. fold w h in Ew, Eh, Erows.
    exists canvas. split; [exact Ec|]. split; [exact Ew|]. split; [exact Eh|].
    split; [exact Erows|].
    unfold getAnnotatedImageDataUrl, has_image, toDataURL.
    rewrite Ec, Hr, Ew, Eh, Erows. reflexivity.
Qed.

Lemma getAnnotatedImageDataUrl_iff_image_witness :
  exists ses : @Session mono,
    run (mounted default_maxDisplayWidth default_maxDisplayHeight)
      tap_then_stroke = Some ses
    /\ image (state ses) = Some imgA
    /\ getAnnotatedImageDataUrl ses
       = Some "data:image/png;base64,iVBORw0KGgo="%string
    /\ (getAnnotatedImageDataUrl ses = None <-> image (state ses) = None).
Proof.
  destruct (run_computes (R := mono)
              (fun ses => (image (state ses), getAnnotatedImageDataUrl ses))
              (mounted default_maxDisplayWidth default_maxDisplayHeight)
              tap_then_stroke
              (Some imgA, Some "data:image/png;base64,iVBORw0KGgo="%string))
    as (ses & Hrun & Hview); [reflexivity|].
  exists ses. split; [exact Hrun|]. injection Hview as Hi Hurl.
  split; [exact Hi|]. split; [exact Hurl|].
  destruct (getAnnotatedImageDataUrl_iff_image mono default_maxDisplayWidth
              default_maxDisplayHeight tap_then_stroke ses Hrun)
    as (_ & Hiff & _).
  exact Hiff.
Defined.

(* ================================================================== *)
(** ** Decodes in flight *)

(** C7, as stated, fails: [fileB] is requested while [fileA] is being
    read; the decode of [fileB] completes first and the decode of [fileA]
    last.  The session ends with the image of [fileA], although the
    source requested last is [fileB] and nothing is in flight. *)
Lemma stale_completion_wins :
  exists (mid ses : @Session mono),
    run (mounted default_maxDisplayWidth default_maxDisplayHeight)
      (firstn 4 stale_completion) = Some mid
    /\ image (state mid) = Some imgB
    /\ run mid (skipn 4 stale_completion) = Some ses
    /\ imageFile (props ses) = Some fileB
    /\ pending ses = []
    /\ image (state ses) = Some imgA
    /\ imgA <> imgB.
Proof.
  eexists. eexists. split; [reflexivity|]. split; [reflexivity|].
  split; [reflexivity|]. split; [reflexivity|]. split; [reflexivity|].
  split; [reflexivity | discriminate].
Qed.

(** C7, amended.  A request made while a decode is in flight cancels
    nothing: it joins the decodes in flight and changes no state.  Every
    completion is applied when it arrives: [img.onload] of any decode in
    flight sets the bitmap to the image it decoded and clears the committed
    strokes, [img.onerror] empties the bitmap and clears them.  So the
    session reflects the completion that arrived last, whichever request
    it belongs to. *)
Theorem decode_completions_apply_on_arrival :
  forall (R : Rasterizer) (ses ses1 : Session),
    (forall file, step ses (SetImageFile (Some file)) = Some ses1 ->
                  pending ses1 = pending ses ++ [Reading file]
                  /\ state ses1 = state ses)
    /\ (forall k w h,
           step ses (ImgLoad k w h) = Some ses1 ->
           exists file url,
             nth_error (pending ses) k = Some (Decoding file url)
             /\ image (state ses1) = Some (mkImage url w h)
             /\ drawingPaths (state ses1) = []
             /\ pending ses1 = remove_nth k (pending ses))
    /\ (forall k,
           step ses (ImgError k) = Some ses1 ->
           exists file url,
             nth_error (pending ses) k = Some (Decoding file url)
             /\ image (state ses1) = None
             /\ drawingPaths (state ses1) = []
             /\ pending ses1 = remove_nth k (pending ses)).
Proof.
  intros R ses ses1. split; [|split].
  - intros file H. cbn [step] in H. inversion H; subst; clear H.
    split; reflexivity.
  - intros k w h H. cbn [step] in H.
    destruct (nth_error (pending ses) k) as [[file|file url]|];
      try discriminate.
    inversion H; subst; clear H. exists file, url. repeat split.
  - intros k H. cbn [step] in H.
    destruct (nth_error (pending ses) k) as [[file|file url]|];
      try discriminate.
    inversion H; subst; clear H. exists file, url. repeat split.
Qed.

Lemma decode_completions_apply_on_arrival_witness :
  let ses : @Session mono :=
    {| props := {| imageFile := Some fileB;
                   maxDisplayWidth := default_maxDisplayWidth;
                   maxDisplayHeight := default_maxDisplayHeight |};
       state := {| image := Some imgB; drawingPaths := [[pt 1 1; pt 2 2]];
                   isDrawing := false; currentPath := [] |};
       rendered := {| image := Some imgB; drawingPaths := [[pt 1 1; pt 2 2]];
                      isDrawing := false; currentPath := [] |};
       canvasRef := Some fresh_canvas;
       pending := [Decoding fileA (src imgA)]; log := [] |} in
  exists ses1,
    step ses (ImgLoad 0 2000 1000) = Some ses1
    /\ image (state ses1) = Some imgA /\ drawingPaths (state ses1) = [].
Proof.
  intros ses. eexists. split; [reflexivity|].
  match goal with
  | |- image (state ?ses1) = _ /\ _ =>
      destruct (proj1 (proj2 (decode_completions_apply_on_arrival mono ses ses1))
                  0%nat 2000 1000 eq_refl) as (file & url & Hn & Hi & Hd & _)
  end.
  inversion Hn; subst. split; assumption.
Defined.

(* ================================================================== *)
(** * Further properties of the component *)

(** X1.  From the mounted component, whatever the events, the active
    stroke is non-empty exactly while the drawing flag is on. *)
Theorem active_stroke_while_drawing :
  forall (R : Rasterizer) (maxW maxH : number) (trace : list Event)
         (ses : Session),
    run (mounted maxW maxH) trace = Some ses ->
    active_stroke_ok (state ses).
Proof.
  intros R maxW maxH trace ses Hrun.
  apply (run_ok trace _ _ Hrun (mounted_ok maxW maxH)).
Qed.

Lemma active_stroke_while_drawing_witness :
  exists ses : @Session mono,
    run (mounted default_maxDisplayWidth default_maxDisplayHeight)
      (firstn 7 tap_then_stroke) = Some ses
    /\ isDrawing (state ses) = true
    /\ currentPath (state ses) = [pt 10 10; pt 50 10]
    /\ active_stroke_ok (state ses).
Proof.
  destruct (run_computes (R := mono)
              (fun ses => (isDrawing (state ses), currentPath (state ses)))
              (mounted default_maxDisplayWidth default_maxDisplayHeight)
              (firstn 7 tap_then_stroke) (true, [pt 10 10; pt 50 10]))
    as (ses & Hrun & Hview); [vm_compute; reflexivity|].
  exists ses. split; [exact Hrun|]. injection Hview as Hd Hc.
  split; [exact Hd|]. split; [exact Hc|].
  apply (active_stroke_while_drawing mono default_maxDisplayWidth
           default_maxDisplayHeight (firstn 7 tap_then_stroke)).
  exact Hrun.
Defined.

(** X2.  The host always knows whether there are markings: from the
    mounted component, whatever the events, the last value passed to
    [onSelectionChange] (false before any call, as the host assumes) tells
    whether the list of committed strokes is non-empty. *)
Theorem host_selection_in_sync :
  forall (R : Rasterizer) (maxW maxH : number) (trace : list Event)
         (ses : Session),
    run (mounted maxW maxH) trace = Some ses ->
    last_selection (log ses) false
    = (0 <? List.length (drawingPaths (state ses)))%nat.
Proof.
  intros R maxW maxH trace ses Hrun.
  apply (run_ok trace _ _ Hrun (mounted_ok maxW maxH)).
Qed.

Lemma host_selection_in_sync_witness :
  exists ses : @Session mono,
    run (mounted default_maxDisplayWidth default_maxDisplayHeight)
      (tap_then_stroke ++ [ClearSelection]) = Some ses
    /\ last_selection (log ses) false = false
    /\ last_selection (log ses) false
       = (0 <? List.length (drawingPaths (state ses)))%nat.
Proof.
  destruct (run_computes (R := mono)
              (fun ses => last_selection (log ses) false)
              (mounted default_maxDisplayWidth default_maxDisplayHeight)
              (tap_then_stroke ++ [ClearSelection]) false)
    as (ses & Hrun & Hview); [vm_compute; reflexivity|].
  exists ses. split; [exact Hrun|]. split; [exact Hview|].
  apply (host_selection_in_sync mono default_maxDisplayWidth
           default_maxDisplayHeight (tap_then_stroke ++ [ClearSelection])).
  exact Hrun.
Defined.



(** X4.  The end of a gesture is handled once: [onMouseUp] and
    [onMouseLeave] (or [onTouchEnd]) both call [handleInteractionEnd], and
    a second call right after the first changes nothing and calls
    nothing, so a stroke is never committed twice. *)
Theorem second_end_is_ignored :
  forall s : State,
    let s1 := fst (run_call (handleInteractionEnd s) s) in
    run_call (handleInteractionEnd s1) s1 = (s1, []).
Proof.
  intros s. cbv zeta. rewrite (handleInteractionEnd_run s).
  destruct (negb (isDrawing s) || negb (has_image s)) eqn:G; cbn [fst].
  - rewrite (handleInteractionEnd_run s), G. reflexivity.
  - destruct (1 <? List.length (currentPath s))%nat; reflexivity.
Qed.

Lemma host_view_app (l out : list effect) :
  host_view (l ++ out) = host_view l ++ host_view out.
Proof. apply filter_app. Qed.

Section Gesture.
Context {R : Rasterizer}.

(** Moves handled with no render between them: every one is accepted by
    the handler of the latest render and appends its position. *)
Lemma run_moves (moves : list (PointerEvent * Point)) (ses : Session) :
  isDrawing (rendered ses) = true -> has_image (rendered ses) = true ->
  Forall at_position moves ->
  exists ses1 : Session,
    run ses (map PointerMove (map fst moves)) = Some ses1
    /\ rendered ses1 = rendered ses
    /\ image (state ses1) = image (state ses)
    /\ drawingPaths (state ses1) = drawingPaths (state ses)
    /\ isDrawing (state ses1) = isDrawing (state ses)
    /\ currentPath (state ses1) = currentPath (state ses) ++ map snd moves
    /\ host_view (log ses1) = host_view (log ses).
Proof.
  revert ses; induction moves as [|[ev pos] moves IH]; intros ses Hd Hi Hpos.
  - exists ses. cbn. rewrite app_nil_r. repeat split; auto.
  - inversion Hpos as [|? ? Hev Hrest]; subst.
    unfold at_position in Hev. cbn [fst snd] in Hev.
    cbn [map run step fst snd].
    set (ses1 := queue ses (handleInteractionMove (rendered ses) ev)).
    destruct (queue_fields ses (handleInteractionMove (rendered ses) ev))
      as (Es & Er & El & _).
    fold ses1 in Es, Er, El.
    rewrite (handleInteractionMove_at _ _ _ _ Hev), Hd, Hi in Es, El.
    cbn [negb orb fst snd] in Es, El.
    destruct (IH ses1) as (ses2 & Hrun & H0 & H1 & H2 & H3 & H4 & H5).
    + rewrite Er. exact Hd.
    + rewrite Er. exact Hi.
    + exact Hrest.
    + exists ses2. rewrite Es in H1, H2, H3, H4. cbn in H1, H2, H3, H4.
      split; [exact Hrun|]. split; [congruence|]. split; [exact H1|].
      split; [exact H2|]. split; [exact H3|]. split.
      * rewrite H4, <- app_assoc. reflexivity.
      * rewrite H5, El, host_view_app. cbn. apply app_nil_r.
Qed.

(** Bursts of moves, each followed by a render. *)
Lemma run_bursts (bursts : list (list (PointerEvent * Point)))
  (ses : Session) :
  rendered ses = state ses ->
  isDrawing (state ses) = true -> has_image (state ses) = true ->
  Forall (Forall at_position) bursts ->
  exists ses1 : Session,
    run ses (flat_map (fun burst => map PointerMove burst ++ [Render])
               (map (map fst) bursts)) = Some ses1
    /\ rendered ses1 = state ses1
    /\ image (state ses1) = image (state ses)
    /\ drawingPaths (state ses1) = drawingPaths (state ses)
    /\ isDrawing (state ses1) = true
    /\ currentPath (state ses1)
       = currentPath (state ses) ++ map snd (List.concat bursts)
    /\ host_view (log ses1) = host_view (log ses).
Proof.
  revert ses; induction bursts as [|burst bursts IH]; intros ses Hr Hd Hi Hpos.
  - exists ses. cbn. rewrite app_nil_r. repeat split; auto.
  - inversion Hpos as [|? ? Hburst Hrest]; subst.
    cbn [map flat_map List.concat]. rewrite <- app_assoc, run_app.
    destruct (run_moves burst ses) as (ses1 & Hrun & H0 & H1 & H2 & H3 & H4 & H5);
      [rewrite Hr; exact Hd | rewrite Hr; exact Hi | exact Hburst |].
    rewrite Hrun. cbn [app run step].
    set (ses2 := commit ses1 (ret tt) (pending ses1)).
    destruct (commit_fields ses1 (ret tt) (pending ses1))
      as (Es & Er & El & _).
    fold ses2 in Es, Er, El. cbn [run_call ret fst snd] in Es, Er, El.
    destruct (IH ses2) as (ses3 & Hrun3 & G0 & G1 & G2 & G3 & G4 & G5).
    + congruence.
    + rewrite Es, H3. exact Hd.
    + unfold has_image in *. rewrite Es, H1. exact Hi.
    + exact Hrest.
    + exists ses3. split; [exact Hrun3|]. split; [exact G0|].
      split; [congruence|]. split; [congruence|]. split; [exact G3|].
      split.
      * rewrite G4, Es, H4, map_app, app_assoc. reflexivity.
      * rewrite G5, El, app_nil_r. exact H5.
Qed.
End Gesture.

(** X5.  A gesture records the pointer positions that were rendered, in
    order.  On an image, after a pointer-down with the primary contact at
    [p0], moves that come in bursts, each burst followed by a render, and
    further moves that are not rendered before the pointer-up, the
    pointer-up appends to the committed strokes the one stroke made of
    [p0] and of the positions of the rendered moves, and tells the host
    that markings exist, when there is at least one rendered move; with
    none, nothing is committed and the host is not called.  The positions
    of the moves that were not rendered are lost: the handler of the
    pointer-up reads the stroke of the latest render.  Either way the
    recorder is idle afterwards, and whatever stroke was in progress
    before the pointer-down is lost. *)
Theorem gesture_records_positions :
  forall (R : Rasterizer) (ses : Session) (e0 : PointerEvent) (p0 : Point)
         (bursts : list (list (PointerEvent * Point)))
         (late : list (PointerEvent * Point)),
    has_image (rendered ses) = true -> has_image (state ses) = true ->
    secondary_button (nativeEvent e0) = false ->
    at_position (e0, p0) ->
    Forall (Forall at_position) bursts -> Forall at_position late ->
    exists ses1 : Session,
      run ses (gesture e0 (map (map fst) bursts) (map fst late)) = Some ses1
      /\ image (state ses1) = image (state ses)
      /\ isDrawing (state ses1) = false /\ currentPath (state ses1) = []
      /\ rendered ses1 = state ses1
      /\ drawingPaths (state ses1)
         = match List.concat bursts with
           | [] => drawingPaths (state ses)
           | _ :: _ =>
               drawingPaths (state ses) ++ [p0 :: map snd (List.concat bursts)]
           end
      /\ host_view (log ses1)
         = host_view (log ses)
           ++ match List.concat bursts with
              | [] => []
              | _ :: _ => [onSelectionChange true]
              end.
Proof.
  intros R ses e0 p0 bursts late Hir Hi Hb Hp0 Hbursts Hlate.
  unfold at_position in Hp0. cbn [fst snd] in Hp0.
  unfold gesture. cbn [run step].
  set (ses0 := commit ses (handleInteractionStart (rendered ses) e0) (pending ses)).
  destruct (commit_fields ses (handleInteractionStart (rendered ses) e0)
              (pending ses)) as (Es & Er & El & _).
  fold ses0 in Es, Er, El.
  rewrite (handleInteractionStart_at _ _ _ _ Hp0), Hir, Hb in Es, Er, El.
  cbn [negb orb fst snd] in Es, Er, El.
  destruct (run_bursts bursts ses0)
    as (ses1 & Hrun1 & F0 & F1 & F2 & F3 & F4 & F5);
    [congruence | rewrite Es; reflexivity
    | unfold has_image in *; rewrite Es; exact Hi | exact Hbursts |].
  rewrite run_app, Hrun1.
  destruct (run_moves late ses1)
    as (ses2 & Hrun2 & G0 & G1 & G2 & G3 & _ & G5);
    [rewrite F0; exact F3
    | unfold has_image in *; rewrite F0, F1, Es; exact Hi | exact Hlate |].
  rewrite run_app, Hrun2. cbn [run step].
  set (ses3 := commit ses2 (handleInteractionEnd (rendered ses2)) (pending ses2)).
  destruct (commit_fields ses2 (handleInteractionEnd (rendered ses2))
              (pending ses2)) as (Es3 & Er3 & El3 & _).
  fold ses3 in Es3, Er3, El3.
  assert (Hi1 : has_image (state ses1) = true).
  { unfold has_image in *. rewrite F1, Es. exact Hi. }
  rewrite handleInteractionEnd_at, G0, F0, F3, Hi1 in Es3, Er3, El3.
  cbn [negb orb] in Es3, Er3, El3.
  rewrite Es in F1, F2, F4. cbn in F1, F2, F4.
  exists ses3. split; [reflexivity|].
  rewrite El3, host_view_app, G5, F5, El, host_view_app, Er3, Es3.
  rewrite F4, G2, F2, G1, F1.
  destruct (List.concat bursts) as [|m rendered_moves]; cbn.
  - rewrite !app_nil_r. repeat split.
  - rewrite length_app. cbn. rewrite Nat.add_comm. cbn.
    rewrite app_nil_r. repeat split.
Qed.

Lemma gesture_records_positions_witness :
  let s := {| image := Some imgA; drawingPaths := [[pt 1 1; pt 2 2]];
              isDrawing := false; currentPath := [] |} in
  let ses : @Session mono :=
    {| props := {| imageFile := Some fileA;
                   maxDisplayWidth := default_maxDisplayWidth;
                   maxDisplayHeight := default_maxDisplayHeight |};
       state := s; rendered := s;
       canvasRef := Some fresh_canvas; pending := []; log := [] |} in
  exists ses1,
    run ses [PointerDown (mouse_at 0 10 10);
             PointerMove (mouse_at 0 50 10); Render;
             PointerMove (mouse_at 0 50 50); Render;
             PointerMove (mouse_at 0 70 70); PointerEnd] = Some ses1
    /\ drawingPaths (state ses1)
       = [[pt 1 1; pt 2 2]; [pt 10 10; pt 50 10; pt 50 50]].
Proof.
  intros s ses.
  destruct (gesture_records_positions mono ses (mouse_at 0 10 10) (pt 10 10)
              [[(mouse_at 0 50 10, pt 50 10)]; [(mouse_at 0 50 50, pt 50 50)]]
              [(mouse_at 0 70 70, pt 70 70)])
    as (ses1 & Hrun & _ & _ & _ & _ & Hd & _);
    [reflexivity | reflexivity | reflexivity | reflexivity
    | repeat constructor | repeat constructor
    | exists ses1; split; [exact Hrun | exact Hd]].
Defined.

(* ================================================================== *)
(** ** Further properties of the draw effect and of the export *)

Lemma filter_idem {A} (f : A -> bool) (l : list A) :
  filter f (filter f l) = filter f l.
Proof.
  induction l as [|a l IH]; cbn; [reflexivity|].
  destruct (f a) eqn:E; cbn; rewrite ?E, IH; reflexivity.
Qed.

Section MoreCanvasFacts.
Context {R : Rasterizer}.

(** The draw effect looks at the state through the image and the strokes
    it paints only. *)
Lemma draw_stroked (props : Props) (s s' : State) (c : HTMLCanvasElement) :
  image s = image s' -> stroked s = stroked s' ->
  draw props s c = draw props s' c.
Proof.
  intros Hi Hs. unfold draw. rewrite <- Hi. destruct (image s) as [img|];
    [|reflexivity].
  unfold drawAnnotated.
  rewrite (stroke_passes s), (stroke_passes s'), Hs. reflexivity.
Qed.

Lemma toDataURL_pixels (c1 c2 : HTMLCanvasElement) :
  width c1 = width c2 -> height c1 = height c2 ->
  (forall col row,
      0 <= col < width c1 -> 0 <= row < height c1 ->
      bitmap c1 col row = bitmap c2 col row) ->
  toDataURL c1 = toDataURL c2.
Proof.
  intros Hw Hh Hb. unfold toDataURL.
  assert (Hrows : rows c1 = rows c2).
  { unfold rows. rewrite <- Hw, <- Hh.
    apply map_ext_in. intros row Hrow. apply map_ext_in. intros col Hcol.
    apply Hb; apply In_Zrange; assumption. }
  now rewrite Hrows, Hw, Hh.
Qed.
End MoreCanvasFacts.

(** X6.  Strokes with fewer than two points are not painted.  The canvas
    the draw effect leaves is the same when the active stroke is dropped
    from the state, provided the drawing flag is off or the stroke has
    fewer than two points (a tap in progress shows nothing); and it is the
    same when the committed strokes with fewer than two points are
    dropped. *)
Theorem short_strokes_are_not_painted :
  forall (R : Rasterizer) (props : Props) (s : State) (c : HTMLCanvasElement),
    (isDrawing s = false \/ (List.length (currentPath s) < 2)%nat ->
     draw props s c
     = draw props {| image := image s; drawingPaths := drawingPaths s;
                     isDrawing := false; currentPath := [] |} c)
    /\ draw props s c
       = draw props
           {| image := image s;
              drawingPaths :=
                filter (fun path => negb (List.length path <? 2)%nat)
                       (drawingPaths s);
              isDrawing := isDrawing s; currentPath := currentPath s |} c.
Proof.
  intros R props s c. split.
  - intros H. apply draw_stroked; [reflexivity|]. unfold stroked.
    cbn [isDrawing currentPath drawingPaths andb].
    destruct H as [-> | H]; [reflexivity|].
    replace (1 <? List.length (currentPath s))%nat with false
      by (symmetry; apply Nat.ltb_ge; lia).
    now rewrite andb_false_r.
  - apply draw_stroked; [reflexivity|]. unfold stroked.
    cbn [isDrawing currentPath drawingPaths].
    now rewrite filter_idem.
Qed.

Lemma short_strokes_are_not_painted_witness :
  let props := {| imageFile := Some fileA;
                  maxDisplayWidth := default_maxDisplayWidth;
                  maxDisplayHeight := default_maxDisplayHeight |} in
  draw props {| image := Some imgA; drawingPaths := [[pt 1 1; pt 2 2]];
                isDrawing := true; currentPath := [pt 10 10] |}
       (@fresh_canvas mono)
  = draw props {| image := Some imgA; drawingPaths := [[pt 1 1; pt 2 2]];
                  isDrawing := false; currentPath := [] |}
         (@fresh_canvas mono).
Proof.
  intros props.
  apply (proj1 (short_strokes_are_not_painted mono props
                  {| image := Some imgA; drawingPaths := [[pt 1 1; pt 2 2]];
                     isDrawing := true; currentPath := [pt 10 10] |}
                  fresh_canvas)).
  right. simpl. lia.
Defined.

(** X7.  After the draw effect the size of the canvas is a function of
    the props and of the image alone, whatever it was before: with an
    image, the display width and height converted to [unsigned long]
    (truncated); without one, [maxDisplayWidth] and
    [Math.max(200, maxDisplayHeight)] converted likewise. *)
Theorem canvas_takes_display_size :
  forall (R : Rasterizer) (props : Props) (s : State) (c : HTMLCanvasElement),
    valid_canvas c ->
    match image s with
    | Some img =>
        width (draw props s c)
        = reflect_unsigned_long 300
            (displayWidth (maxDisplayWidth props) (maxDisplayHeight props) img)
        /\ height (draw props s c)
           = reflect_unsigned_long 150
               (displayHeight (maxDisplayWidth props) (maxDisplayHeight props)
                  img)
    | None =>
        width (draw props s c)
        = reflect_unsigned_long 300 (maxDisplayWidth props)
        /\ height (draw props s c)
           = reflect_unsigned_long 150
               (JS.Math_max [JS.of_Z 200; maxDisplayHeight props])
    end.
Proof.
  intros R props s c V. unfold draw. destruct (image s) as [img|].
  - destruct (drawAnnotated_spec props s img c) as (W & H & _).
    cbv zeta in W, H. rewrite W, H.
    destruct (needs_resize _ _ c) eqn:T; [split; reflexivity|].
    destruct (needs_resize_false _ _ c V T) as [Ew Eh].
    cbn [clearRect with_bitmap width height]. split; congruence.
  - destruct (drawPlaceholder_spec props c) as (W & H & _).
    cbv zeta in W, H. rewrite W, H.
    destruct (needs_resize _ _ c) eqn:T; [split; reflexivity|].
    destruct (needs_resize_false _ _ c V T) as [Ew Eh].
    split; congruence.
Qed.

Lemma canvas_takes_display_size_witness :
  let props := {| imageFile := Some fileA;
                  maxDisplayWidth := default_maxDisplayWidth;
                  maxDisplayHeight := default_maxDisplayHeight |} in
  width (draw props {| image := Some (mkImage "data:c" 1000 3); drawingPaths := [];
                       isDrawing := false; currentPath := [] |}
              (@fresh_canvas mono)) = 800
  /\ height (draw props {| image := Some (mkImage "data:c" 1000 3);
                           drawingPaths := []; isDrawing := false;
                           currentPath := [] |}
               (@fresh_canvas mono)) = 2.
Proof.
  intros props.
  destruct (canvas_takes_display_size mono props
              {| image := Some (mkImage "data:c" 1000 3); drawingPaths := [];
                 isDrawing := false; currentPath := [] |}
              fresh_canvas) as [Hw Hh].
  - unfold valid_canvas; simpl; lia.
  - rewrite Hw, Hh. split; reflexivity.
Defined.

(** X8.  The export depends on the raster only: two canvases of the same
    size with the same pixels give the same data URL, whatever their
    drawing state; so running the draw effect once more on the same props
    and state does not change what [toDataURL] returns. *)
Theorem export_depends_on_raster_only :
  forall (R : Rasterizer),
    (forall c1 c2 : HTMLCanvasElement,
        width c1 = width c2 -> height c1 = height c2 ->
        (forall col row,
            0 <= col < width c1 -> 0 <= row < height c1 ->
            bitmap c1 col row = bitmap c2 col row) ->
        toDataURL c1 = toDataURL c2)
    /\ (forall (props : Props) (s : State) (c : HTMLCanvasElement),
           valid_canvas c ->
           toDataURL (draw props s (draw props s c))
           = toDataURL (draw props s c)).
Proof.
  intros R. split; [exact toDataURL_pixels|].
  intros props s c V.
  assert (E : canvas_equiv (draw props s (draw props s c)) (draw props s c)).
  { unfold draw. destruct (image s) as [img|].
    - apply drawAnnotated_idempotent; exact V.
    - apply drawPlaceholder_idempotent; exact V. }
  destruct E as (Hw & Hh & _ & Hb). apply toDataURL_pixels; assumption.
Qed.

Lemma export_depends_on_raster_only_witness :
  let props := {| imageFile := Some fileA;
                  maxDisplayWidth := default_maxDisplayWidth;
                  maxDisplayHeight := default_maxDisplayHeight |} in
  let s := {| image := Some imgA; drawingPaths := [[pt 1 1; pt 2 2]];
              isDrawing := false; currentPath := [] |} in
  toDataURL (draw props s (draw props s (@fresh_canvas mono)))
  = toDataURL (draw props s (@fresh_canvas mono)).
Proof.
  intros props s.
  apply (proj2 (export_depends_on_raster_only mono) props s fresh_canvas).
  unfold valid_canvas; simpl; lia.
Defined.

(** X9.  Taking the file away does not cancel a decode in flight: when
    [imageFile] becomes null the bitmap and the committed strokes are
    cleared and the host is told there is no selection, but the decodes
    in flight stay, and the [img.onload] of one of them afterwards puts
    its image on the session although [imageFile] is null. *)
Theorem clearing_the_file_keeps_decodes :
  forall (R : Rasterizer) (ses : Session) (k : nat) (f : File)
         (url : string) (w h : Z),
    nth_error (pending ses) k = Some (Decoding f url) ->
    exists ses1 ses2 : Session,
      step ses (SetImageFile None) = Some ses1
      /\ image (state ses1) = None /\ drawingPaths (state ses1) = []
      /\ log ses1 = log ses ++ [onSelectionChange false]
      /\ pending ses1 = pending ses
      /\ step ses1 (ImgLoad k w h) = Some ses2
      /\ imageFile (props ses2) = None
      /\ image (state ses2) = Some (mkImage url w h).
Proof.
  intros R ses k f url w h Hk.
  set (ses1 := commit (with_imageFile None ses) no_imageFile (pending ses)).
  assert (Ep : pending ses1 = pending ses) by reflexivity.
  exists ses1,
    (commit ses1 (img_onload (mkImage url w h)) (remove_nth k (pending ses1))).
  split; [reflexivity|].
  split; [reflexivity|]. split; [reflexivity|]. split; [reflexivity|].
  split; [exact Ep|].
  cbn [step]. rewrite Ep, Hk. repeat split.
Qed.

Lemma clearing_the_file_keeps_decodes_witness :
  let ses : @Session mono :=
    {| props := {| imageFile := Some fileA;
                   maxDisplayWidth := default_maxDisplayWidth;
                   maxDisplayHeight := default_maxDisplayHeight |};
       state := initialState; rendered := initialState;
       canvasRef := Some fresh_canvas;
       pending := [Decoding fileA (src imgA)]; log := [] |} in
  exists ses2,
    run ses [SetImageFile None; ImgLoad 0 2000 1000] = Some ses2
    /\ imageFile (props ses2) = None /\ image (state ses2) = Some imgA.
Proof.
  intros ses.
  destruct (clearing_the_file_keeps_decodes mono ses 0 fileA (src imgA)
              2000 1000 eq_refl)
    as (ses1 & ses2 & H1 & _ & _ & _ & _ & H2 & Hf & Hi).
  exists ses2. cbn [run]. rewrite H1, H2. repeat split; assumption.
Defined.

(* ================================================================== *)
(** * The uploader *)

Lemma uploads_app (a b : list Uploader.effect) :
  Uploader.uploads (a ++ b) = Uploader.uploads a ++ Uploader.uploads b.
Proof.
  induction a as [|e a IH]; [reflexivity|].
  destruct e; cbn; rewrite ?IH; reflexivity.
Qed.

(** One event: the files it hands over are its accepted files, and the
    file name shown afterwards is the name of the file just handed over,
    or nothing, or what it was when nothing was handed over. *)
Lemma uploader_handle (e : Uploader.Event) (s : Uploader.State) :
  Uploader.uploads (snd (Uploader.handle e s)) = Uploader.accepted e
  /\ match Uploader.accepted e with
     | f :: _ => Uploader.fileName (fst (Uploader.handle e s)) = Some (name f)
     | [] => Uploader.fileName (fst (Uploader.handle e s)) = None
             \/ Uploader.fileName (fst (Uploader.handle e s))
                = Uploader.fileName s
     end.
Proof.
  destruct e as [[|f files]| |[] [|f files]| ]; cbn; auto;
    destruct (String.prefix "image/" (Uploader.type f)); cbn; auto.
Qed.

Lemma uploader_run (trace : list Uploader.Event) (s : Uploader.State)
  (out : list Uploader.effect) :
  (forall n, Uploader.fileName s = Some n ->
             exists fs f, Uploader.uploads out = fs ++ [f] /\ name f = n) ->
  Uploader.uploads (snd (Uploader.run trace s out))
  = Uploader.uploads out ++ flat_map Uploader.accepted trace
  /\ forall n, Uploader.fileName (fst (Uploader.run trace s out)) = Some n ->
               exists fs f,
                 Uploader.uploads (snd (Uploader.run trace s out)) = fs ++ [f]
                 /\ name f = n.
Proof.
  revert s out; induction trace as [|e rest IH]; intros s out HI.
  - cbn. rewrite app_nil_r. split; [reflexivity | exact HI].
  - cbn [Uploader.run flat_map].
    destruct (uploader_handle e s) as [Hu Hn].
    destruct (Uploader.handle e s) as [s1 out1]. cbn [fst snd] in Hu, Hn.
    destruct (IH s1 (out ++ out1)) as [H1 H2].
    + intros n Hs1. rewrite uploads_app, Hu.
      destruct (Uploader.accepted e) as [|f fs] eqn:Ea.
      * rewrite app_nil_r. destruct Hn as [Hn|Hn]; [congruence|].
        apply HI. congruence.
      * assert (fs = []) as ->.
        { destruct e as [[|x files]| |[] [|x files]| ]; cbn in Ea;
            try discriminate;
            destruct (String.prefix "image/" (Uploader.type x));
            inversion Ea; reflexivity. }
        exists (Uploader.uploads out), f. split; [reflexivity | congruence].
    + split; [|exact H2].
      rewrite H1, uploads_app, Hu, <- app_assoc. reflexivity.
Qed.

(** X10.  The uploader hands over image files only.  After any sequence
    of changes of the input, drags, drops and clicks on the clear button,
    each file passed to [onImageUpload] is the first file of a change, or
    of a drop made while not disabled, and its type starts with
    [image/]; the files passed are exactly those, in order; and a file
    name is shown only if it is the name of the last file passed. *)
Theorem uploader_hands_over_images_only :
  forall trace : list Uploader.Event,
    let s := fst (Uploader.run trace Uploader.initialState []) in
    let out := snd (Uploader.run trace Uploader.initialState []) in
    Uploader.uploads out = flat_map Uploader.accepted trace
    /\ (forall f, In f (Uploader.uploads out) ->
                  exists entry rest,
                    (In (Uploader.Change (entry :: rest)) trace
                     \/ In (Uploader.Drop false (entry :: rest)) trace)
                    /\ Uploader.file entry = f
                    /\ String.prefix "image/" (Uploader.type entry) = true)
    /\ (forall n, Uploader.fileName s = Some n ->
                  exists fs f, Uploader.uploads out = fs ++ [f] /\ name f = n).
Proof.
  intros trace s out.
  destruct (uploader_run trace Uploader.initialState []) as [H1 H2];
    [discriminate|].
  fold s out in H1, H2. cbn in H1. split; [exact H1|]. split; [|exact H2].
  intros f Hf. rewrite H1 in Hf. apply in_flat_map in Hf as (e & He & Hfe).
  destruct e as [[|x files]| |[] [|x files]| ]; cbn in Hfe; try contradiction;
    destruct (String.prefix "image/" (Uploader.type x)) eqn:Ex;
    try contradiction; destruct Hfe as [<-|[]]; exists x, files; auto.
Qed.

(* ================================================================== *)
(** * The explanation service *)

Lemma split_no_sep (sep : ascii) (a : string) :
  has_char sep a = false -> split sep a = [a].
Proof.
  induction a as [|c a IH]; cbn; [reflexivity|].
  intros H. apply orb_false_iff in H as [Hc Ha].
  rewrite Hc, (IH Ha). reflexivity.
Qed.

Lemma split_at_sep (sep : ascii) (a b : string) :
  has_char sep a = false ->
  split sep (a ++ String sep b) = a :: split sep b.
Proof.
  induction a as [|c a IH]; cbn.
  - intros _. now rewrite Ascii.eqb_refl.
  - intros H. apply orb_false_iff in H as [Hc Ha].
    rewrite Hc, (IH Ha). reflexivity.
Qed.

Lemma payload_is_between_commas_aux (header payload : string) :
  has_char "," header = false -> has_char "," payload = false ->
  Gemini.base64DataWithoutPrefix (header ++ String "," payload) = Some payload
  /\ Gemini.base64DataWithoutPrefix header = None.
Proof.
  intros Hh Hp. unfold Gemini.base64DataWithoutPrefix.
  rewrite split_at_sep by assumption.
  rewrite (split_no_sep _ payload Hp), (split_no_sep _ header Hh).
  split; reflexivity.
Qed.

(** X11.  What the service sends as image data is the text between the
    first and the second comma of its argument: for [header,payload] it is
    [payload]; anything after a second comma is dropped; and an argument
    without a comma has no payload. *)
Theorem payload_is_between_commas :
  forall header payload tail : string,
    has_char "," header = false -> has_char "," payload = false ->
    Gemini.base64DataWithoutPrefix (header ++ String "," payload)
    = Some payload
    /\ Gemini.base64DataWithoutPrefix
         (header ++ String "," (payload ++ String "," tail))
       = Some payload
    /\ Gemini.base64DataWithoutPrefix header = None.
Proof.
  intros header payload tail Hh Hp. unfold Gemini.base64DataWithoutPrefix.
  rewrite !split_at_sep by assumption.
  rewrite (split_no_sep _ payload Hp), (split_no_sep _ header Hh).
  repeat split.
Qed.

Lemma payload_is_between_commas_witness :
  Gemini.base64DataWithoutPrefix "data:image/png;base64,iVBORw0KGgo="
  = Some "iVBORw0KGgo="%string.
Proof.
  apply (proj1 (payload_is_between_commas "data:image/png;base64"
                  "iVBORw0KGgo=" "" eq_refl eq_refl)).
Defined.

Lemma uploader_hands_over_images_only_witness :
  let png := Uploader.mkEntry fileA "image/png" in
  let txt := Uploader.mkEntry fileB "text/plain" in
  Uploader.uploads
    (snd (Uploader.run
            [Uploader.Change [txt; png]; Uploader.Drop true [png];
             Uploader.Drop false [png; txt]; Uploader.ClearClick]
            Uploader.initialState []))
  = [fileA].
Proof.
  intros png txt.
  rewrite (proj1 (uploader_hands_over_images_only
                    [Uploader.Change [txt; png]; Uploader.Drop true [png];
                     Uploader.Drop false [png; txt]; Uploader.ClearClick])).
  reflexivity.
Defined.

Lemma includes_after_request_failed (message : string) :
  includes "API key not valid" ("Gemini API request failed: " ++ message)
  = includes "API key not valid" message.
Proof. reflexivity. Qed.

Lemma catch_hides_key_error (error : option string) (message : string) :
  Gemini.catch error = Gemini.Rejected message ->
  includes "API key not valid" message = false.
Proof.
  unfold Gemini.catch. destruct error as [m|].
  - destruct (includes "API key not valid" m) eqn:E; intros H;
      injection H as <-; [reflexivity | exact E].
  - intros H; injection H as <-. reflexivity.
Qed.

Lemma catch_rejects (error : option string) :
  exists message, Gemini.catch error = Gemini.Rejected message.
Proof.
  unfold Gemini.catch. destruct error as [m|]; [|eauto].
  destruct (includes "API key not valid" m); eauto.
Qed.

Lemma request_explanation_requests
  (api : Gemini.Client -> Gemini.Request -> Gemini.ApiOutcome)
  (client : Gemini.Client) (request : Gemini.Request) :
  Gemini.requests (Gemini.request_explanation api client request)
  = [(client, request)].
Proof.
  unfold Gemini.request_explanation.
  destruct (api client request) as [[[|c t]|]|m| |m]; reflexivity.
Qed.

Lemma request_explanation_fulfilled
  (api : Gemini.Client -> Gemini.Request -> Gemini.ApiOutcome)
  (client : Gemini.Client) (request : Gemini.Request) (e : string) :
  Gemini.settled (Gemini.request_explanation api client request)
  = Gemini.Fulfilled e
  <-> e <> EmptyString /\ api client request = Gemini.Resolves (Some e).
Proof.
  unfold Gemini.request_explanation.
  destruct (api client request) as [[[|c t]|]|m| |m]; cbn [Gemini.settled];
    (split; [intros H | intros [Hne H]]);
    try (inversion H; subst; split; [discriminate | reflexivity]);
    try (inversion H; subst; try reflexivity; contradiction Hne; reflexivity);
    try (match type of H with
         | Gemini.catch ?err = _ =>
             destruct (catch_rejects err) as [msg Hm]; congruence
         end).
Qed.

Lemma request_by_model_fulfilled
  (api : Gemini.Client -> Gemini.Request -> Gemini.ApiOutcome)
  (client : Gemini.Client) (request : Gemini.Request) (e : string) :
  Gemini.settled (Gemini.request_by_model api client request)
  = Gemini.Fulfilled e
  <-> e <> EmptyString /\ api client request = Gemini.Resolves (Some e).
Proof.
  unfold Gemini.request_by_model.
  destruct (api client request) as [t|m| |m] eqn:E;
    try (rewrite request_explanation_fulfilled, E; reflexivity).
  cbn [Gemini.settled]. split.
  - intros H. destruct (catch_rejects (Some m)) as [msg Hm]. congruence.
  - intros [_ H]. discriminate.
Qed.

(** X12.  The service checks before it sends: with an empty key the call
    is rejected with the key message whatever the image data; with a key
    but image data that has no comma, or nothing between the first comma
    and the next, it is rejected with the format message.  In both cases
    no request is sent, no client is built and nothing is logged. *)
Theorem service_checks_before_sending :
  forall (api : Gemini.Client -> Gemini.Request -> Gemini.ApiOutcome)
         (data key header tail : string) (_ai : option Gemini.Client),
    (key = EmptyString ->
     Gemini.getExplanationForImageRegion api data key _ai
     = (Gemini.rejected "Gemini API key is not configured.", _ai))
    /\ (key <> EmptyString -> has_char "," header = false ->
        Gemini.getExplanationForImageRegion api header key _ai
        = (Gemini.rejected "Invalid image data format.", _ai)
        /\ Gemini.getExplanationForImageRegion api (header ++ ",") key _ai
           = (Gemini.rejected "Invalid image data format.", _ai)
        /\ Gemini.getExplanationForImageRegion api
             (header ++ String "," (String "," tail)) key _ai
           = (Gemini.rejected "Invalid image data format.", _ai)).
Proof.
  intros api data key header tail _ai. split.
  - intros ->. reflexivity.
  - intros Hk Hh. unfold Gemini.getExplanationForImageRegion.
    destruct key as [|c key]; [contradiction Hk; reflexivity|]. cbn [falsy].
    unfold Gemini.base64DataWithoutPrefix.
    rewrite (split_no_sep _ header Hh).
    rewrite (split_at_sep _ header "" Hh).
    rewrite (split_at_sep _ header (String "," tail) Hh).
    repeat split.
Qed.

Lemma service_checks_before_sending_witness :
  Gemini.getExplanationForImageRegion (fun _ _ => Gemini.RejectsOther)
    "invalid-data" "test-api-key" None
  = (Gemini.rejected "Invalid image data format.", None).
Proof.
  apply (proj2 (service_checks_before_sending (fun _ _ => Gemini.RejectsOther)
                  "" "test-api-key" "invalid-data" "" None));
    [discriminate | reflexivity].
Defined.

(** X13.  The service fulfils exactly when the API resolves with a
    non-empty text, and then with that text: a call is fulfilled with [e]
    if and only if the key is non-empty, the image data has a non-empty
    payload, [e] is non-empty and the API, asked by the module's client
    with that payload as [image/png] data and the prompt, resolved with
    [e]. *)
Theorem service_fulfils_with_api_text :
  forall (api : Gemini.Client -> Gemini.Request -> Gemini.ApiOutcome)
         (data key : string) (_ai : option Gemini.Client) (e : string),
    Gemini.settled
      (fst (Gemini.getExplanationForImageRegion api data key _ai))
    = Gemini.Fulfilled e
    <-> key <> EmptyString /\ e <> EmptyString
        /\ exists payload,
             Gemini.base64DataWithoutPrefix data = Some payload
             /\ payload <> EmptyString
             /\ api (fst (Gemini.getGeminiClient key _ai))
                    {| Gemini.model := "gemini-2.5-flash-preview-04-17";
                       Gemini.mimeType := "image/png";
                       Gemini.data := payload;
                       Gemini.text := Gemini.PROMPT_TEXT |}
                = Gemini.Resolves (Some e).
Proof.
  intros api data key _ai e. unfold Gemini.getExplanationForImageRegion.
  destruct key as [|c key]; cbn [falsy].
  - split; [discriminate | intros [H _]; contradiction H; reflexivity].
  - destruct (Gemini.base64DataWithoutPrefix data) as [[|p payload]|] eqn:Ep.
    + split; [discriminate|].
      intros (_ & _ & payload & H & Hne & _). inversion H; subst.
      contradiction Hne; reflexivity.
    + destruct (Gemini.getGeminiClient (String c key) _ai) as [ai ai1] eqn:Eg.
      cbn [fst]. rewrite request_by_model_fulfilled. split.
      * intros [Hne Ha]. split; [discriminate|]. split; [exact Hne|].
        exists (String p payload). repeat split; [discriminate | exact Ha].
      * intros (_ & Hne & payload' & H & _ & Ha). inversion H; subst.
        split; assumption.
    + split; [discriminate|]. intros (_ & _ & payload & H & _). discriminate.
Qed.

(** X14.  An answer without text is an error like any other: when the
    API resolves with no text or with the empty text, the error thrown for
    it is caught by the handler of API errors, logged, and the call is
    rejected with ["Gemini API request failed: No explanation received
    from the API."]. *)
Theorem empty_answer_is_reported_as_failed_request :
  forall (api : Gemini.Client -> Gemini.Request -> Gemini.ApiOutcome)
         (data key payload : string) (_ai : option Gemini.Client),
    key <> EmptyString ->
    Gemini.base64DataWithoutPrefix data = Some payload ->
    payload <> EmptyString ->
    (forall client request,
        api client request = Gemini.Resolves None
        \/ api client request = Gemini.Resolves (Some EmptyString)) ->
    let r := fst (Gemini.getExplanationForImageRegion api data key _ai) in
    Gemini.settled r
    = Gemini.Rejected
        "Gemini API request failed: No explanation received from the API."
    /\ Gemini.console r = [Some "No explanation received from the API."%string]
    /\ List.length (Gemini.requests r) = 1%nat.
Proof.
  intros api data key payload _ai Hk Hp Hne Hapi.
  unfold Gemini.getExplanationForImageRegion.
  destruct key as [|c key]; [contradiction Hk; reflexivity|]. cbn [falsy].
  rewrite Hp. destruct payload as [|p payload]; [contradiction Hne; reflexivity|].
  destruct (Gemini.getGeminiClient (String c key) _ai) as [ai ai1].
  cbn [fst]. unfold Gemini.request_by_model, Gemini.request_explanation.
  destruct (Hapi ai {| Gemini.model := "gemini-2.5-flash-preview-04-17";
                       Gemini.mimeType := "image/png";
                       Gemini.data := String p payload;
                       Gemini.text := Gemini.PROMPT_TEXT |}) as [-> | ->];
    repeat split.
Qed.

Lemma empty_answer_is_reported_as_failed_request_witness :
  Gemini.settled
    (fst (Gemini.getExplanationForImageRegion
            (fun _ _ => Gemini.Resolves (Some EmptyString))
            "data:image/png;base64,test" "test-api-key" None))
  = Gemini.Rejected
      "Gemini API request failed: No explanation received from the API.".
Proof.
  apply (empty_answer_is_reported_as_failed_request
           (fun _ _ => Gemini.Resolves (Some EmptyString))
           "data:image/png;base64,test" "test-api-key" "test" None);
    [discriminate | reflexivity | discriminate | intros; right; reflexivity].
Defined.

(** X15.  The module keeps the client of the first call that needed one:
    when a call with key [k1] is followed by a call with another key
    [k2], both with a key and a payload, the second call goes through the
    client built with [k1]: it settles, logs and makes requests as the
    [try] block does with that client and the second payload, and the
    module still holds that client.  So a request the second call makes
    is made by the client of [k1]; it makes one unless
    [getGenerativeModel] throws, and none when it does. *)
Theorem first_key_wins :
  forall (api : Gemini.Client -> Gemini.Request -> Gemini.ApiOutcome)
         (d1 d2 k1 k2 p1 p2 : string),
    k1 <> EmptyString -> k2 <> EmptyString ->
    Gemini.base64DataWithoutPrefix d1 = Some p1 -> p1 <> EmptyString ->
    Gemini.base64DataWithoutPrefix d2 = Some p2 -> p2 <> EmptyString ->
    let first := Gemini.getExplanationForImageRegion api d1 k1 None in
    let second := Gemini.getExplanationForImageRegion api d2 k2 (snd first) in
    let client := {| Gemini.apiKey := k1 |} in
    let request := {| Gemini.model := "gemini-2.5-flash-preview-04-17";
                      Gemini.mimeType := "image/png"; Gemini.data := p2;
                      Gemini.text := Gemini.PROMPT_TEXT |} in
    fst second = Gemini.request_by_model api client request
    /\ snd second = Some client
    /\ ((forall message, api client request <> Gemini.Throws message) ->
        Gemini.requests (fst second) = [(client, request)])
    /\ (forall message,
           api client request = Gemini.Throws message ->
           Gemini.requests (fst second) = []
           /\ Gemini.settled (fst second) = Gemini.catch (Some message)
           /\ Gemini.console (fst second) = [Some message]).
Proof.
  intros api d1 d2 k1 k2 p1 p2 Hk1 Hk2 Hp1 Hn1 Hp2 Hn2.
  unfold Gemini.getExplanationForImageRegion.
  destruct k1 as [|c1 k1]; [contradiction Hk1; reflexivity|].
  destruct k2 as [|c2 k2]; [contradiction Hk2; reflexivity|].
  destruct p1 as [|a1 p1]; [contradiction Hn1; reflexivity|].
  destruct p2 as [|a2 p2]; [contradiction Hn2; reflexivity|].
  cbn [falsy]. rewrite Hp1, Hp2. cbn [Gemini.getGeminiClient fst snd].
  split; [reflexivity|]. split; [reflexivity|].
  unfold Gemini.request_by_model. split.
  - intros Hno.
    destruct (api _ _) as [t|m| |m] eqn:E;
      try apply request_explanation_requests.
    exfalso. first [exact (Hno m E) | exact (Hno m eq_refl)].
  - intros message ->. repeat split.
Qed.

Lemma first_key_wins_witness :
  let api := fun (_ : Gemini.Client) (_ : Gemini.Request) =>
               Gemini.Resolves (Some "Test explanation"%string) in
  let first :=
    Gemini.getExplanationForImageRegion api "data:image/png;base64,test"
      "old-key" None in
  map fst
    (Gemini.requests
       (fst (Gemini.getExplanationForImageRegion api
               "data:image/png;base64,test123" "new-key" (snd first))))
  = [{| Gemini.apiKey := "old-key" |}].
Proof.
  intros api first. unfold first.
  rewrite (proj1 (proj2 (proj2
             (first_key_wins api "data:image/png;base64,test"
                "data:image/png;base64,test123" "old-key" "new-key"
                "test" "test123" ltac:(discriminate) ltac:(discriminate)
                eq_refl ltac:(discriminate) eq_refl ltac:(discriminate))))).
  - reflexivity.
  - intros message. discriminate.
Defined.

Lemma service_fulfils_with_api_text_witness :
  Gemini.settled
    (fst (Gemini.getExplanationForImageRegion
            (fun _ _ => Gemini.Resolves (Some "Test explanation"%string))
            "data:image/png;base64,test" "test-api-key" None))
  = Gemini.Fulfilled "Test explanation".
Proof.
  apply (proj2 (service_fulfils_with_api_text
                  (fun _ _ => Gemini.Resolves (Some "Test explanation"%string))
                  "data:image/png;base64,test" "test-api-key" None
                  "Test explanation")).
  split; [discriminate|]. split; [discriminate|].
  exists "test"%string. split; [reflexivity|]. split; [discriminate|reflexivity].
Defined.

(* ================================================================== *)
(** * The host *)

Lemma env_service_rejections (API_KEY : option string)
  (api : Gemini.Client -> Gemini.Request -> Gemini.ApiOutcome)
  (data message : string) :
  Gemini.settled (Gemini.getExplanationForImageRegion_env API_KEY api data)
  = Gemini.Rejected message ->
  includes "API key not valid" message = false.
Proof.
  unfold Gemini.getExplanationForImageRegion_env.
  destruct (falsy API_KEY); [intros H; injection H as <-; reflexivity|].
  destruct (Gemini.base64DataWithoutPrefix data) as [[|c payload]|];
    try (intros H; injection H as <-; reflexivity).
  unfold Gemini.request_explanation.
  match goal with
  | |- context [api ?c ?r] => destruct (api c r) as [[[|ch t]|]|m| |m]
  end; cbn [Gemini.settled]; try discriminate; apply catch_hides_key_error.
Qed.

(** X16.  [handleLearn] never shows its message for an invalid API key.
    The service turns an API error that mentions an invalid key into a
    message of its own, so the test [handleLearn] makes on the message it
    receives never succeeds: after a request that fails the error shown is
    ["Failed to get explanation: "] followed by the message of the
    service, and whatever the state, the environment and the API, the
    error is never ["Invalid API Key. Please check your API_KEY
    environment variable."]. *)
Theorem invalid_key_message_is_never_shown :
  forall (env : App.Env) (s : App.State),
    App.error (App.final (App.handleLearn env s))
    <> Some "Invalid API Key. Please check your API_KEY environment variable."%string
    /\ (forall (r : Gemini.Run) (message : string),
           App.service (App.handleLearn env s) = Some r ->
           Gemini.settled r = Gemini.Rejected message ->
           App.error (App.final (App.handleLearn env s))
           = Some ("Failed to get explanation: " ++ message)%string
           /\ App.geminiResponse (App.final (App.handleLearn env s)) = None).
Proof.
  intros env s. unfold App.handleLearn.
  destruct (falsy (App.API_KEY env)); [split; [discriminate|discriminate]|].
  destruct (App.uploadedFile s); [|split; discriminate].
  destruct (App.hasMarkings s); cbn [negb]; [|split; discriminate].
  destruct (App.imageRef env) as [[[|c url]|]|]; try (split; discriminate).
  destruct (Gemini.settled
              (Gemini.getExplanationForImageRegion_env (App.API_KEY env)
                 (App.api env) (String c url))) as [e|m] eqn:Es.
  - split; [discriminate|]. intros r message H Hr.
    injection H as <-. congruence.
  - rewrite (env_service_rejections _ _ _ _ Es). split; [discriminate|].
    intros r message H Hr. injection H as <-.
    rewrite Es in Hr. injection Hr as <-. split; reflexivity.
Qed.

Lemma invalid_key_message_is_never_shown_witness :
  let env := {| App.API_KEY := Some "invalid-key"%string;
                App.imageRef := Some (Some "data:image/png;base64,test"%string);
                App.api := fun _ _ => Gemini.RejectsError "API key not valid" |} in
  let s := {| App.uploadedFile := Some fileA; App.isLoading := false;
              App.error := None; App.geminiResponse := None;
              App.hasMarkings := true |} in
  App.error (App.final (App.handleLearn env s))
  = Some "Failed to get explanation: Invalid API Key. Please check your configuration."%string.
Proof.
  intros env s.
  apply (proj2 (invalid_key_message_is_never_shown env s)
           (Gemini.getExplanationForImageRegion_env (App.API_KEY env)
              (App.api env) "data:image/png;base64,test"%string)
           "Invalid API Key. Please check your configuration."%string);
    reflexivity.
Defined.

(** X17.  [handleLearn] sends a request only when there is a key, a file,
    markings, a mounted component and a non-empty annotated image; in
    every other case it sets the error and nothing else.  When it sends
    one, the state shows loading with no error and no answer while the
    request is pending, and afterwards loading is off and exactly one of
    the error and the answer is set; the file and the markings flag are
    as they were. *)
Theorem handleLearn_guards_and_settles :
  forall (env : App.Env) (s : App.State),
    let r := App.handleLearn env s in
    (App.service r <> None
     <-> falsy (App.API_KEY env) = false /\ App.uploadedFile s <> None
         /\ App.hasMarkings s = true
         /\ exists url, App.imageRef env = Some (Some url)
                        /\ url <> EmptyString)
    /\ (App.service r = None ->
        App.loading r = None
        /\ exists message, App.final r = App.setError (Some message) s)
    /\ (App.service r <> None ->
        App.loading r
        = Some (App.setGeminiResponse None
                  (App.setError None (App.setIsLoading true s)))
        /\ App.isLoading (App.final r) = false
        /\ App.uploadedFile (App.final r) = App.uploadedFile s
        /\ App.hasMarkings (App.final r) = App.hasMarkings s
        /\ (App.error (App.final r) = None
            <-> App.geminiResponse (App.final r) <> None)).
Proof.
  intros env s. cbv zeta. unfold App.handleLearn, App.stop.
  destruct (falsy (App.API_KEY env)) eqn:Ek;
    [|destruct (App.uploadedFile s) as [f|] eqn:Ef;
      [destruct (App.hasMarkings s) eqn:Eh; cbn [negb];
       [destruct (App.imageRef env) as [[[|c url]|]|] eqn:Er|]|]];
    try (split;
         [split; [intros H; contradiction H; reflexivity
                 | intros (H1 & H2 & H3 & u & Hu & Hne); congruence]
         |split; [intros _; split; [reflexivity | eexists; reflexivity]
                 | intros H; contradiction H; reflexivity]]).
  assert (G : false = false /\ Some f <> None
              /\ true = true
              /\ exists u, Some (Some (String c url)) = Some (Some u)
                           /\ u <> EmptyString).
  { split; [reflexivity|]. split; [discriminate|]. split; [reflexivity|].
    exists (String c url). split; [reflexivity | discriminate]. }
  destruct (Gemini.settled
              (Gemini.getExplanationForImageRegion_env (App.API_KEY env)
                 (App.api env) (String c url))) as [e|m] eqn:Es.
  - split; [split; [intros _; exact G | discriminate]|].
    split; [discriminate|]. intros _. cbn. rewrite Ef, Eh.
    repeat split; try discriminate.
  - split; [split; [intros _; exact G | discriminate]|].
    split; [discriminate|]. intros _.
    rewrite (env_service_rejections _ _ _ _ Es). cbn. rewrite Ef, Eh.
    repeat split; try discriminate. intros H; contradiction H; reflexivity.
Qed.

Lemma handleLearn_guards_and_settles_witness :
  let env := {| App.API_KEY := Some "test-api-key"%string;
                App.imageRef := Some (Some "data:image/png;base64,test"%string);
                App.api := fun _ _ => Gemini.Resolves (Some "Test explanation"%string) |} in
  let s := {| App.uploadedFile := Some fileA; App.isLoading := false;
              App.error := Some "Please upload an image first."%string;
              App.geminiResponse := None; App.hasMarkings := true |} in
  App.isLoading (App.final (App.handleLearn env s)) = false
  /\ App.geminiResponse (App.final (App.handleLearn env s))
     = Some "Test explanation"%string.
Proof.
  intros env s. split; [|reflexivity].
  apply (proj2 (proj2 (handleLearn_guards_and_settles env s))).
  discriminate.
Defined.

(** X18.  What the API receives is the picture the user sees.  When the
    component shows an image on a canvas that has pixels, and the PNG
    encoding of the canvas is non-empty base64 (it has no comma), then
    [handleLearn], given the component's [getAnnotatedImageDataUrl], a
    key, a file and markings, sends exactly one request, whose image data
    is that encoding of the rows of the canvas, as [image/png], with the
    prompt. *)
Theorem request_carries_the_canvas :
  forall (R : Rasterizer) (ses : Session) (canvas : HTMLCanvasElement)
         (env : App.Env) (s : App.State) (f : File),
    canvasRef ses = Some canvas -> has_image (rendered ses) = true ->
    width canvas <> 0 -> height canvas <> 0 ->
    has_char "," (encodePNG (width canvas) (height canvas) (rows canvas))
    = false ->
    encodePNG (width canvas) (height canvas) (rows canvas) <> EmptyString ->
    falsy (App.API_KEY env) = false -> App.uploadedFile s = Some f ->
    App.hasMarkings s = true ->
    App.imageRef env = Some (getAnnotatedImageDataUrl ses) ->
    exists r : Gemini.Run,
      App.service (App.handleLearn env s) = Some r
      /\ map snd (Gemini.requests r)
         = [{| Gemini.model := "gemini-2.5-flash";
               Gemini.mimeType := "image/png";
               Gemini.data :=
                 encodePNG (width canvas) (height canvas) (rows canvas);
               Gemini.text := Gemini.PROMPT_TEXT |}].
Proof.
  intros R ses canvas env s f Hc Hi Hw Hh Hcomma Hne Hk Hf Hm Href.
  assert (Hurl : getAnnotatedImageDataUrl ses
                 = Some ("data:image/png;base64,"
                         ++ encodePNG (width canvas) (height canvas)
                              (rows canvas))%string).
  { unfold getAnnotatedImageDataUrl, toDataURL. rewrite Hc, Hi. cbn [negb].
    apply Z.eqb_neq in Hw, Hh. rewrite Hw, Hh. reflexivity. }
  assert (Hp : Gemini.base64DataWithoutPrefix
                 ("data:image/png;base64,"
                  ++ encodePNG (width canvas) (height canvas) (rows canvas))
               = Some (encodePNG (width canvas) (height canvas) (rows canvas))).
  { apply (proj1 (payload_is_between_commas_aux "data:image/png;base64"
                    (encodePNG (width canvas) (height canvas) (rows canvas))
                    eq_refl Hcomma)). }
  unfold App.handleLearn. rewrite Hk, Hf, Hm, Href, Hurl. cbn [negb].
  set (enc := encodePNG (width canvas) (height canvas) (rows canvas)) in *.
  change ("data:image/png;base64," ++ enc)%string
    with (String "d" ("ata:image/png;base64," ++ enc)) in *.
  set (url := String "d" ("ata:image/png;base64," ++ enc)) in *.
  assert (Hrun : map snd
                   (Gemini.requests
                      (Gemini.getExplanationForImageRegion_env (App.API_KEY env)
                         (App.api env) url))
                 = [{| Gemini.model := "gemini-2.5-flash";
                       Gemini.mimeType := "image/png"; Gemini.data := enc;
                       Gemini.text := Gemini.PROMPT_TEXT |}]).
  { unfold Gemini.getExplanationForImageRegion_env. rewrite Hk, Hp.
    destruct enc as [|c e]; [contradiction Hne; reflexivity|].
    rewrite request_explanation_requests. reflexivity. }
  subst url. cbv iota.
  match goal with
  | |- context [Gemini.settled ?run] => destruct (Gemini.settled run)
  end; eexists; (split; [reflexivity | exact Hrun]).
Qed.

Lemma request_carries_the_canvas_witness :
  let props := {| imageFile := Some fileA;
                  maxDisplayWidth := default_maxDisplayWidth;
                  maxDisplayHeight := default_maxDisplayHeight |} in
  let st := {| image := Some imgA; drawingPaths := [[pt 1 1; pt 2 2]];
               isDrawing := false; currentPath := [] |} in
  let ses : @Session mono :=
    {| props := props; state := st; rendered := st;
       canvasRef := Some (draw props st fresh_canvas);
       pending := []; log := [] |} in
  let env := {| App.API_KEY := Some "test-api-key"%string;
                App.imageRef := Some (getAnnotatedImageDataUrl ses);
                App.api := fun _ _ =>
                             Gemini.Resolves (Some "Test explanation"%string) |} in
  let s := {| App.uploadedFile := Some fileA; App.isLoading := false;
              App.error := None; App.geminiResponse := None;
              App.hasMarkings := true |} in
  exists r,
    App.service (App.handleLearn env s) = Some r
    /\ map (fun q => Gemini.data (snd q)) (Gemini.requests r)
       = ["iVBORw0KGgo="%string].
Proof.
  intros props st ses env s.
  destruct (request_carries_the_canvas mono ses (draw props st fresh_canvas)
              env s fileA) as (r & Hs & Hr);
    [reflexivity | reflexivity | vm_compute; discriminate
    | vm_compute; discriminate | reflexivity | discriminate | reflexivity
    | reflexivity | reflexivity | reflexivity |].
  exists r. split; [exact Hs|].
  rewrite <- (map_map snd Gemini.data), Hr. reflexivity.
Defined.
